(** * A shallow embedding of [serve.py] (SPA + SSI request handler)

    Python [str] values are lists of code points ([list N]); raw file
    contents are lists of bytes ([list Byte.byte]).  The filesystem is
    static during one request and read only; the handler's effects are
    threaded through a small state-and-exception monad over a world made of
    the filesystem, the process working directory and the log of what the
    handler wrote to the client. *)

From Stdlib Require Import String Ascii List NArith ZArith Arith Lia Bool.
Import ListNotations.
Open Scope N_scope.

(** ** Python strings *)

Definition str := list N.

(** ASCII literal as a Python [str]. *)
Definition lit (s : string) : str := map N_of_ascii (list_ascii_of_string s).

Fixpoint str_eqb (a b : str) : bool :=
  match a, b with
  | [], [] => true
  | x :: a', y :: b' => (x =? y) && str_eqb a' b'
  | _, _ => false
  end.

(** [s.startswith(p)] *)
Fixpoint starts_with (p s : str) : bool :=
  match p, s with
  | [], _ => true
  | x :: p', y :: s' => (x =? y) && starts_with p' s'
  | _, [] => false
  end.

(** [s.endswith(p)] *)
Definition ends_with (p s : str) : bool := starts_with (rev p) (rev s).

(** Strip a literal prefix, as a regex literal does. *)
Fixpoint strip_prefix (p s : str) : option str :=
  match p, s with
  | [], _ => Some s
  | x :: p', y :: s' => if x =? y then strip_prefix p' s' else None
  | _, [] => None
  end.

(** Longest prefix whose characters satisfy [f]: a greedy regex repetition. *)
Fixpoint span (f : N -> bool) (s : str) : str * str :=
  match s with
  | [] => ([], [])
  | c :: s' => if f c then let (a, b) := span f s' in (c :: a, b) else ([], s)
  end.

(** ** Bytes and UTF-8 (Python's strict codec, [errors='replace'] and
    the encoder) *)

Definition bytes := list Byte.byte.

Definition byte_of_N (n : N) : Byte.byte :=
  match Byte.of_N n with Some b => b | None => Byte.x00 end.

Definition in_range (lo hi b : N) : bool := (lo <=? b) && (b <=? hi).

Inductive dstep := DOk (cp : N) (used : nat) | DErr (used : nat).

(** One decoding step; on error, [used] is the length of the maximal
    ill-formed subpart, which CPython replaces by one U+FFFD. *)
Definition decode_step (bs : list N) : dstep :=
  match bs with
  | [] => DErr 0
  | b0 :: r =>
    if b0 <? 128 then DOk b0 1
    else if in_range 194 223 b0 then
      match r with
      | b1 :: _ => if in_range 128 191 b1
                   then DOk ((b0 - 192) * 64 + (b1 - 128)) 2 else DErr 1
      | [] => DErr 1
      end
    else if in_range 224 239 b0 then
      let lo := if b0 =? 224 then 160 else 128 in
      let hi := if b0 =? 237 then 159 else 191 in
      match r with
      | b1 :: r1 =>
        if in_range lo hi b1 then
          match r1 with
          | b2 :: _ => if in_range 128 191 b2
                       then DOk ((b0 - 224) * 4096 + (b1 - 128) * 64 + (b2 - 128)) 3
                       else DErr 2
          | [] => DErr 2
          end
        else DErr 1
      | [] => DErr 1
      end
    else if in_range 240 244 b0 then
      let lo := if b0 =? 240 then 144 else 128 in
      let hi := if b0 =? 244 then 143 else 191 in
      match r with
      | b1 :: r1 =>
        if in_range lo hi b1 then
          match r1 with
          | b2 :: r2 =>
            if in_range 128 191 b2 then
              match r2 with
              | b3 :: _ =>
                if in_range 128 191 b3
                then DOk ((b0 - 240) * 262144 + (b1 - 128) * 4096
                          + (b2 - 128) * 64 + (b3 - 128)) 4
                else DErr 3
              | [] => DErr 3
              end
            else DErr 2
          | [] => DErr 2
          end
        else DErr 1
      | [] => DErr 1
      end
    else DErr 1
  end.

Fixpoint utf8_decode_fuel (fuel : nat) (bs : list N) : option str :=
  match bs with
  | [] => Some []
  | _ :: _ =>
    match fuel with
    | O => None
    | S f =>
      match decode_step bs with
      | DOk cp n => option_map (cons cp) (utf8_decode_fuel f (skipn n bs))
      | DErr _ => None
      end
    end
  end.

(** [b.decode("utf-8")]: [None] is a [UnicodeDecodeError]. *)
Definition utf8_decode (b : bytes) : option str :=
  utf8_decode_fuel (length b) (map Byte.to_N b).

Fixpoint utf8_decode_replace_fuel (fuel : nat) (bs : list N) : str :=
  match bs with
  | [] => []
  | _ :: _ =>
    match fuel with
    | O => []
    | S f =>
      match decode_step bs with
      | DOk cp n => cp :: utf8_decode_replace_fuel f (skipn n bs)
      | DErr n => 65533 :: utf8_decode_replace_fuel f (skipn (Nat.max 1 n) bs)
      end
    end
  end.

(** [b.decode("utf-8", "replace")] on byte values. *)
Definition utf8_decode_replace (bs : list N) : str :=
  utf8_decode_replace_fuel (length bs) bs.

(** Encoding of one code point; lone surrogates raise. *)
Definition encode_cp (c : N) : option (list N) :=
  if c <? 128 then Some [c]
  else if c <? 2048 then Some [192 + c / 64; 128 + c mod 64]
  else if in_range 55296 57343 c then None
  else if c <? 65536 then
    Some [224 + c / 4096; 128 + (c / 64) mod 64; 128 + c mod 64]
  else Some [240 + c / 262144; 128 + (c / 4096) mod 64;
             128 + (c / 64) mod 64; 128 + c mod 64].

(** [s.encode("utf-8")]: [None] is a [UnicodeEncodeError]. *)
Fixpoint utf8_encode (s : str) : option bytes :=
  match s with
  | [] => Some []
  | c :: s' =>
    match encode_cp c, utf8_encode s' with
    | Some b, Some r => Some (map byte_of_N b ++ r)
    | _, _ => None
    end
  end.

(** Universal-newline translation of a text-mode read ([newline=None]):
    ["\r\n"] and a lone ["\r"] become ["\n"]. *)
Fixpoint translate_newlines (s : str) : str :=
  match s with
  | 13 :: (10 :: r) => 10 :: translate_newlines r
  | 13 :: r => 10 :: translate_newlines r
  | c :: r => c :: translate_newlines r
  | [] => []
  end.

(** [str(n)] for a length. *)
Fixpoint uint_str (u : Decimal.uint) : str :=
  match u with
  | Decimal.Nil => []
  | Decimal.D0 u => 48 :: uint_str u
  | Decimal.D1 u => 49 :: uint_str u
  | Decimal.D2 u => 50 :: uint_str u
  | Decimal.D3 u => 51 :: uint_str u
  | Decimal.D4 u => 52 :: uint_str u
  | Decimal.D5 u => 53 :: uint_str u
  | Decimal.D6 u => 54 :: uint_str u
  | Decimal.D7 u => 55 :: uint_str u
  | Decimal.D8 u => 56 :: uint_str u
  | Decimal.D9 u => 57 :: uint_str u
  end.

Definition str_of_nat (n : nat) : str := uint_str (N.to_uint (N.of_nat n)).

(** ** [posixpath] *)

Definition slash : N := 47.

(** [os.path.join(a, b)] *)
Definition os_path_join (a b : str) : str :=
  if starts_with [slash] b then b
  else if match a with [] => true | _ => ends_with [slash] a end then a ++ b
  else a ++ [slash] ++ b.

(** [os.path.dirname(p)]: up to the last ['/'], trailing slashes stripped
    unless the head is made of slashes only. *)
Definition os_path_dirname (p : str) : str :=
  let head := rev (snd (span (fun c => negb (c =? slash)) (rev p))) in
  if match head with [] => false | _ => negb (forallb (N.eqb slash) head) end
  then rev (snd (span (N.eqb slash) (rev head)))
  else head.

(** ** [urllib.parse.unquote] (encoding utf-8, errors 'replace') *)

Definition hex_val (c : N) : option N :=
  if in_range 48 57 c then Some (c - 48)
  else if in_range 65 70 c then Some (c - 55)
  else if in_range 97 102 c then Some (c - 87)
  else None.

(** [unquote_to_bytes] on an ASCII run: ['%'] followed by two hex digits
    is one byte, any other ['%'] stays literal. *)
Fixpoint pct_decode (s : list N) : list N :=
  match s with
  | 37 :: ((h1 :: (h2 :: r) as t2) as t1) =>
    match hex_val h1, hex_val h2 with
    | Some a, Some b => (16 * a + b) :: pct_decode r
    | _, _ => 37 :: pct_decode t1
    end
  | c :: r => c :: pct_decode r
  | [] => []
  end.

(** Maximal ASCII runs ([_asciire]) are unquoted and decoded; other
    characters pass through.  [run] is the current ASCII run, reversed. *)
Fixpoint unquote_parts (s : str) (run : list N) : str :=
  match s with
  | [] => utf8_decode_replace (pct_decode (rev run))
  | c :: r =>
    if c <? 128 then unquote_parts r (c :: run)
    else utf8_decode_replace (pct_decode (rev run)) ++ c :: unquote_parts r []
  end.

Definition unquote (s : str) : str :=
  if existsb (N.eqb 37) s then unquote_parts s [] else s.

(** ** Filesystem and world *)

(** What a path names once the OS has resolved it. *)
Inductive node :=
| NDir
| NFile (readable : bool) (data : bytes).

Definition FS := str -> option node.

(** [os.stat]: a path with an embedded NUL raises [ValueError], which the
    [os.path] predicates turn into [False]. *)
Definition stat (fs : FS) (p : str) : option node :=
  if existsb (N.eqb 0) p then None else fs p.

Definition os_path_exists (fs : FS) (p : str) : bool :=
  match stat fs p with Some _ => true | None => false end.

Definition os_path_isdir (fs : FS) (p : str) : bool :=
  match stat fs p with Some NDir => true | _ => false end.

Definition os_path_isfile (fs : FS) (p : str) : bool :=
  match stat fs p with Some (NFile _ _) => true | _ => false end.

Inductive exn :=
| FileNotFoundError (p : str)
| PermissionError (p : str)
| IsADirectoryError (p : str)
| ValueError
| UnicodeDecodeError
| UnicodeEncodeError.

Definition is_OSError (e : exn) : bool :=
  match e with
  | FileNotFoundError _ | PermissionError _ | IsADirectoryError _ => true
  | _ => false
  end.

Inductive res (A : Type) := Ok (a : A) | Raise (e : exn).
Arguments Ok {A} a.
Arguments Raise {A} e.

(** [open(p, 'rb').read()] *)
Definition open_rb (fs : FS) (p : str) : res bytes :=
  if existsb (N.eqb 0) p then Raise ValueError else
  match fs p with
  | None => Raise (FileNotFoundError p)
  | Some NDir => Raise (IsADirectoryError p)
  | Some (NFile false _) => Raise (PermissionError p)
  | Some (NFile true data) => Ok data
  end.

(** [open(p, "r", encoding="utf-8").read()]: strict decoding, then
    universal-newline translation. *)
Definition read_text (fs : FS) (p : str) : res str :=
  match open_rb fs p with
  | Raise e => Raise e
  | Ok data =>
    match utf8_decode data with
    | Some t => Ok (translate_newlines t)
    | None => Raise UnicodeDecodeError
    end
  end.

(** What [send_error], [send_response], [send_header] and [end_headers]
    put on the wire, in order. *)
Inductive event :=
| ESendError (code : N) (msg : str)
| EResponse (code : N)
| EHeader (key value : str)
| EEndHeaders.

Record World := mkWorld { w_fs : FS; w_cwd : str; w_out : list event }.

(** ** The handler monad: state over [World], Python exceptions *)

Definition M (A : Type) := World -> res A * World.

Definition ret {A} (a : A) : M A := fun w => (Ok a, w).
Definition raise {A} (e : exn) : M A := fun w => (Raise e, w).
Definition bind {A B} (m : M A) (k : A -> M B) : M B :=
  fun w => match m w with
           | (Ok a, w') => k a w'
           | (Raise e, w') => (Raise e, w')
           end.

Notation "x <- m ;; k" := (bind m (fun x => k))
  (at level 61, m at next level, right associativity).
Notation "m ;;; k" := (bind m (fun _ => k))
  (at level 61, right associativity).

(** [try: m except <caught>: h] *)
Definition try_except {A} (m : M A) (caught : exn -> bool) (h : exn -> M A) : M A :=
  fun w => match m w with
           | (Raise e, w') => if caught e then h e w' else (Raise e, w')
           | r => r
           end.

Definition lift {A} (r : res A) : M A :=
  fun w => (r, w).

Definition get_fs : M FS := fun w => (Ok (w_fs w), w).
(** [os.getcwd()]: the working directory is taken to exist, so the
    [FileNotFoundError] it raises once the directory is removed has no
    counterpart here. *)
Definition os_getcwd : M str := fun w => (Ok (w_cwd w), w).

Definition emit (e : event) : M unit :=
  fun w => (Ok tt, mkWorld (w_fs w) (w_cwd w) (w_out w ++ [e])).

Definition exists_m (p : str) : M bool := fs <- get_fs ;; ret (os_path_exists fs p).
Definition isdir_m (p : str) : M bool := fs <- get_fs ;; ret (os_path_isdir fs p).
Definition isfile_m (p : str) : M bool := fs <- get_fs ;; ret (os_path_isfile fs p).
Definition open_rb_m (p : str) : M bytes := fs <- get_fs ;; lift (open_rb fs p).
Definition read_text_m (p : str) : M str := fs <- get_fs ;; lift (read_text fs p).

Fixpoint mapM {A B} (f : A -> M B) (l : list A) : M (list B) :=
  match l with
  | [] => ret []
  | x :: l' => y <- f x ;; ys <- mapM f l' ;; ret (y :: ys)
  end.

(** ** The include pattern
    [<!--\s*#include\s+virtual=Q([^Q]+)Q\s*-->], Q being the double quote *)

(** Python's [\s] on [str]: [str.isspace()]. *)
Definition is_space (c : N) : bool :=
  in_range 9 13 c || in_range 28 32 c || (c =? 133) || (c =? 160)
  || (c =? 5760) || in_range 8192 8202 c || (c =? 8232) || (c =? 8233)
  || (c =? 8239) || (c =? 8287) || (c =? 12288).

Definition quote : N := 34.

(** A match of the pattern at the start of [s]: the group and the text
    after the match.  Every repetition is followed by a character it
    cannot consume, so the greedy match is the only one. *)
Definition match_include (s : str) : option (str * str) :=
  match strip_prefix (lit "<!--") s with
  | None => None
  | Some s1 =>
    match strip_prefix (lit "#include") (snd (span is_space s1)) with
    | None => None
    | Some s2 =>
      let (ws, s3) := span is_space s2 in
      match ws with
      | [] => None
      | _ :: _ =>
        match strip_prefix (lit "virtual=") s3 with
        | Some (34 :: s4) =>
          let (v, s5) := span (fun c => negb (c =? quote)) s4 in
          match v, s5 with
          | _ :: _, 34 :: s6 =>
            option_map (fun rest => (v, rest))
                       (strip_prefix (lit "-->") (snd (span is_space s6)))
          | _, _ => None
          end
        | _ => None
        end
      end
    end
  end.

(** ** [pattern.sub]: leftmost, non-overlapping matches, left to right *)

Inductive segment :=
| Text (c : N)                  (* a character outside any match *)
| Directive (value raw : str).  (* a match: its group and its text *)

Definition raw_of (seg : segment) : str :=
  match seg with Text c => [c] | Directive _ raw => raw end.

Fixpoint scan_fuel (fuel : nat) (s : str) : list segment :=
  match fuel with
  | O => map Text s
  | S f =>
    match s with
    | [] => []
    | c :: s' =>
      match match_include s with
      | Some (v, rest) =>
        Directive v (firstn (length s - length rest) s) :: scan_fuel f rest
      | None => Text c :: scan_fuel f s'
      end
    end
  end.

Definition scan (s : str) : list segment := scan_fuel (length s) s.

(** ** [SPAHTTPRequestHandler] *)

Inductive reply :=
| RNone                  (* [return None] *)
| RFile (data : bytes)   (* [return f] *)
| RBytesIO (data : bytes) (* [return self.BytesIO(encoded)] *)
| RSuper.                (* [return super().send_head()] *)

Section Handler.

(** The collaborators from [http.server] and CPython. *)
Variable translate_path : str -> str.
Variable guess_type : str -> str.
Variable exn_str : exn -> str.

Definition not_found_comment (p : str) : str :=
  lit "<!-- File not found: " ++ p ++ lit " -->".

Definition error_comment (p : str) (e : exn) : str :=
  lit "<!-- Error including " ++ p ++ lit ": " ++ exn_str e ++ lit " -->".

(** [replace_include], applied to the match's group. *)
Definition replace_include (base_dir include_path : str) : M str :=
  let include_path := os_path_join base_dir (unquote include_path) in
  ok <- (e <- exists_m include_path ;;
         if e then isfile_m include_path else ret false) ;;
  if ok then
    try_except (read_text_m include_path) (fun _ => true)
               (fun e => ret (error_comment include_path e))
  else ret (not_found_comment include_path).

Definition sub_segment (base_dir : str) (seg : segment) : M str :=
  match seg with
  | Text c => ret [c]
  | Directive v _ => replace_include base_dir v
  end.

Definition handle_includes (content base_dir : str) : M str :=
  pieces <- mapM (sub_segment base_dir) (scan content) ;;
  ret (concat pieces).

Definition send_error (code : N) (msg : str) : M reply :=
  emit (ESendError code msg) ;;; ret RNone.

(** [super().send_head()]: the base class's own handling. *)
Definition super_send_head : M reply := ret RSuper.

Definition text_html : str := lit "text/html".

(** Lines 40-65 of [send_head], once [path] is resolved.  The model reads
    the whole file when it opens it: a file that opens is taken to read
    without error, so an [OSError] from [f.read()] at line 49, outside the
    [try], has no counterpart here. *)
Definition serve_resolved (path : str) : M reply :=
  let ctype := guess_type path in
  fo <- try_except (f <- open_rb_m path ;; ret (Some f)) is_OSError
                   (fun _ => send_error 404 (lit "File not found") ;;; ret None) ;;
  match fo with
  | None => ret RNone
  | Some f =>
    if str_eqb ctype text_html then
      content <- lift (match utf8_decode f with
                       | Some c => Ok c
                       | None => Raise UnicodeDecodeError
                       end) ;;
      content <- handle_includes content (os_path_dirname path) ;;
      encoded <- lift (match utf8_encode content with
                       | Some b => Ok b
                       | None => Raise UnicodeEncodeError
                       end) ;;
      emit (EResponse 200) ;;;
      emit (EHeader (lit "Content-type") ctype) ;;;
      emit (EHeader (lit "Content-Length") (str_of_nat (length encoded))) ;;;
      emit EEndHeaders ;;;
      ret (RBytesIO encoded)
    else
      emit (EResponse 200) ;;;
      emit (EHeader (lit "Content-type") ctype) ;;;
      emit (EHeader (lit "Content-Length") (str_of_nat (length f))) ;;;
      emit EEndHeaders ;;;
      ret (RFile f)
  end.

(** The [for index in ("index.html", "index.htm")] loop. *)
Fixpoint find_index (path : str) (names : list str) : M (option str) :=
  match names with
  | [] => ret None
  | index :: rest =>
    let index_path := os_path_join path index in
    e <- exists_m index_path ;;
    if e then ret (Some index_path) else find_index path rest
  end.

Definition index_names : list str := [lit "index.html"; lit "index.htm"].

Definition send_head (self_path : str) : M reply :=
  let path := translate_path self_path in
  d <- isdir_m path ;;
  po <- (if d then find_index path index_names else ret (Some path)) ;;
  match po with
  | None => super_send_head
  | Some path =>
    e <- exists_m path ;;
    if negb e then
      if ends_with (lit ".html") self_path then
        cwd <- os_getcwd ;;
        let spa_fallback := os_path_join cwd (lit "index.html") in
        e' <- exists_m spa_fallback ;;
        if e' then serve_resolved spa_fallback
        else send_error 404 (lit "File not found")
      else super_send_head
    else serve_resolved path
  end.

End Handler.

(** ** Readings of the model used in the statements *)

(** What [replace_include] returns for candidate [p], by case. *)
Definition include_text (exn_str : exn -> str) (fs : FS) (p : str) : str :=
  if os_path_isfile fs p then
    match read_text fs p with
    | Ok t => t
    | Raise e => error_comment exn_str p e
    end
  else not_found_comment p.

Definition render (exn_str : exn -> str) (fs : FS) (base_dir : str)
           (seg : segment) : str :=
  match seg with
  | Text c => [c]
  | Directive v _ => include_text exn_str fs (os_path_join base_dir (unquote v))
  end.

(** The text [handle_includes] produces. *)
Definition expand (exn_str : exn -> str) (fs : FS) (content base_dir : str) : str :=
  concat (map (render exn_str fs base_dir) (scan content)).

(** The directive syntax, written out: [<!--], blanks [w1], [#include],
    blanks [w2], [virtual=], a quote, [v], a quote, blanks [w3], [-->]. *)
Definition directive (w1 w2 v w3 : str) : str :=
  lit "<!--" ++ w1 ++ lit "#include" ++ w2 ++ lit "virtual=" ++ [quote] ++ v
  ++ [quote] ++ w3 ++ lit "-->".

Definition no_quote (v : str) : bool := forallb (fun c => negb (c =? quote)) v.

(** An occurrence as the code's pattern accepts it: at least one blank
    after [#include] and a non-empty path. *)
Definition valid_directive (v d : str) : Prop :=
  exists w1 w2 w3,
    forallb is_space w1 = true /\ forallb is_space w2 = true /\ w2 <> [] /\
    forallb is_space w3 = true /\ v <> [] /\ no_quote v = true /\
    d = directive w1 w2 v w3.

(** Computations that only read the filesystem and the working directory
    and append to the output, independently of what was written before. *)
Definition frame {A} (m : M A) : Prop :=
  forall fs cwd, exists r evs, forall out,
    m (mkWorld fs cwd out) = (r, mkWorld fs cwd (out ++ evs)).

(** ** [BytesIOWrapper] over [io.BytesIO] *)

Record bytesio := mkBytesIO { bio_buf : bytes; bio_pos : nat; bio_closed : bool }.

(** [SPAHTTPRequestHandler.BytesIO(data)]: [io.BytesIO(data)], at position 0. *)
Definition BytesIO (data : bytes) : bytesio := mkBytesIO data 0 false.

(** [read], whose [args] hold no argument ([None]) or one size: [None] as an
    argument and a negative size read to the end.  [read] on a closed
    buffer raises [ValueError]. *)
Definition bio_read (size : option Z) (b : bytesio) : res bytes * bytesio :=
  if bio_closed b then (Raise ValueError, b) else
  let rest := skipn (bio_pos b) (bio_buf b) in
  let n := match size with
           | Some k => if (k <? 0)%Z then length rest else Nat.min (Z.to_nat k) (length rest)
           | None => length rest
           end in
  (Ok (firstn n rest), mkBytesIO (bio_buf b) (bio_pos b + n) false).

(** [close()] *)
Definition bio_close (b : bytesio) : bytesio := mkBytesIO (bio_buf b) (bio_pos b) true.

(** A client's successive [read] calls. *)
Fixpoint bio_reads (sizes : list (option Z)) (b : bytesio) : res (list bytes) * bytesio :=
  match sizes with
  | [] => (Ok [], b)
  | s :: rest =>
    match bio_read s b with
    | (Ok chunk, b') =>
      match bio_reads rest b' with
      | (Ok chunks, b'') => (Ok (chunk :: chunks), b'')
      | (Raise e, b'') => (Raise e, b'')
      end
    | (Raise e, b') => (Raise e, b')
    end
  end.

(** [p in s] on [str]. *)
Fixpoint str_contains (p s : str) : bool :=
  starts_with p s || match s with [] => false | _ :: s' => str_contains p s' end.


(** Writing every character of an ASCII [str] as a [%XX] escape. *)
Definition hex_digit (n : N) : N := if n <? 10 then 48 + n else 55 + n.
Definition pct_escape (s : str) : str :=
  concat (map (fun c => [37; hex_digit (c / 16); hex_digit (c mod 16)]) s).

(** ** A sample site

    [/srv] is served from [/srv]: [index.html] includes [nav.html];
    [docs/] has only [index.htm]; [crlf.html] has CRLF line ends;
    [bad.html] is not UTF-8. *)

Definition bytes_of (s : str) : bytes := map byte_of_N s.

Definition demo_fs : FS := fun p =>
  if str_eqb p (lit "/srv") || str_eqb p (lit "/srv/") then Some NDir
  else if str_eqb p (lit "/srv/docs/") then Some NDir
  else if str_eqb p (lit "/srv/index.html") then
    Some (NFile true (bytes_of (lit "<h1>" ++ directive [32] [32] (lit "nav.html") [32]
                                ++ lit "</h1>")))
  else if str_eqb p (lit "/srv/nav.html") then
    Some (NFile true (bytes_of (lit "<nav>Home</nav>")))
  else if str_eqb p (lit "/srv/docs/index.htm") then
    Some (NFile true (bytes_of (lit "<p>docs</p>")))
  else if str_eqb p (lit "/srv/crlf.html") then
    Some (NFile true (bytes_of [97; 13; 10; 98]))
  else if str_eqb p (lit "/srv/bad.html") then
    Some (NFile true [Byte.xff])
  else None.

Definition demo_world : World := mkWorld demo_fs (lit "/srv") [].

Definition demo_translate (p : str) : str := lit "/srv" ++ p.

Definition demo_guess (p : str) : str :=
  if ends_with (lit ".html") p || ends_with (lit ".htm") p then text_html
  else lit "application/octet-stream".

Definition demo_exn_str (e : exn) : str :=
  match e with
  | PermissionError p => lit "[Errno 13] Permission denied: " ++ p
  | UnicodeDecodeError => lit "'utf-8' codec can't decode"
  | _ => lit "error"
  end.

Definition demo_index_body : bytes := bytes_of (lit "<h1><nav>Home</nav></h1>").

Definition empty_world : World := mkWorld (fun _ => None) (lit "/") [].

(** A second site over the first one: a script, an unreadable page, a
    directory whose [index.html] is itself a directory, and a page without
    directives. *)

Definition site_fs : FS := fun p =>
  if str_eqb p (lit "/srv/app.js") then Some (NFile true (bytes_of (lit "run();")))
  else if str_eqb p (lit "/srv/locked.html") then Some (NFile false (bytes_of (lit "x")))
  else if str_eqb p (lit "/srv/odd/") then Some NDir
  else if str_eqb p (lit "/srv/odd/index.html") then Some NDir
  else if str_eqb p (lit "/srv/odd/index.htm") then Some (NFile true (bytes_of (lit "<p>odd</p>")))
  else if str_eqb p (lit "/srv/plain.html") then Some (NFile true (bytes_of (lit "<p>plain</p>")))
  else demo_fs p.

Definition site_world : World := mkWorld site_fs (lit "/srv") [].

(** * Lemmas *)

Lemma strip_prefix_app (p s : str) : strip_prefix p (p ++ s) = Some s.
Proof. induction p as [|x p IH]; simpl; [reflexivity|]. now rewrite N.eqb_refl. Qed.

Lemma strip_prefix_some (p s s' : str) :
  strip_prefix p s = Some s' -> s = p ++ s'.
Proof.
  revert s. induction p as [|x p IH]; intros s H; simpl in *.
  - congruence.
  - destruct s as [|y s]; [discriminate|].
    destruct (N.eqb_spec x y); [subst; f_equal; auto | discriminate].
Qed.

Lemma span_app (f : N -> bool) (a rest : str) :
  forallb f a = true ->
  (forall c r, rest = c :: r -> f c = false) ->
  span f (a ++ rest) = (a, rest).
Proof.
  intros Ha Hr. induction a as [|x a IH]; simpl in *.
  - destruct rest as [|c r]; [reflexivity|]. simpl. now rewrite (Hr c r eq_refl).
  - apply andb_true_iff in Ha as [Hx Ha]. rewrite Hx, IH by exact Ha. reflexivity.
Qed.

Lemma span_split (f : N -> bool) (s a b : str) :
  span f s = (a, b) ->
  s = a ++ b /\ forallb f a = true /\ (forall c r, b = c :: r -> f c = false).
Proof.
  revert a b. induction s as [|x s IH]; intros a b H; simpl in H.
  - inversion H; subst. repeat split; intros; discriminate.
  - destruct (f x) eqn:Hf.
    + destruct (span f s) as [a' b'] eqn:E. inversion H; subst.
      destruct (IH a' b eq_refl) as (-> & Ha & Hb).
      simpl. rewrite Hf, Ha. auto.
    + inversion H; subst. simpl. repeat split. intros c r Hc. congruence.
Qed.

Lemma str_eqb_eq (a b : str) : str_eqb a b = true <-> a = b.
Proof.
  revert b. induction a as [|x a IH]; intros [|y b]; simpl; split; intro H;
    try discriminate; try reflexivity.
  - apply andb_true_iff in H as [H1 H2]. apply N.eqb_eq in H1. apply IH in H2. congruence.
  - inversion H; subst. rewrite N.eqb_refl. simpl. now apply IH.
Qed.

Lemma stat_some (fs : FS) (p : str) (n : node) :
  stat fs p = Some n -> existsb (N.eqb 0) p = false /\ fs p = Some n.
Proof. unfold stat. destruct (existsb (N.eqb 0) p); [discriminate|auto]. Qed.

Lemma open_rb_stat (fs : FS) (p : str) :
  open_rb fs p =
  match stat fs p with
  | None => if existsb (N.eqb 0) p then Raise ValueError else Raise (FileNotFoundError p)
  | Some NDir => Raise (IsADirectoryError p)
  | Some (NFile false _) => Raise (PermissionError p)
  | Some (NFile true data) => Ok data
  end.
Proof.
  unfold open_rb, stat. destruct (existsb (N.eqb 0) p); [reflexivity|].
  destruct (fs p) as [[|[|] d]|]; reflexivity.
Qed.

Ltac head_char := let c := fresh "c" in let r := fresh "r" in let E := fresh "E" in
  intros c r E; cbn in E; inversion E; reflexivity.

(** The pattern accepts every occurrence of the written-out syntax, and
    consumes exactly it. *)
Lemma match_include_directive (w1 w2 v w3 rest : str) :
  forallb is_space w1 = true -> forallb is_space w2 = true -> w2 <> [] ->
  forallb is_space w3 = true -> v <> [] -> no_quote v = true ->
  match_include (directive w1 w2 v w3 ++ rest) = Some (v, rest).
Proof.
  intros H1 H2 H2n H3 Hv Hq.
  unfold match_include, directive. repeat rewrite <- app_assoc.
  rewrite strip_prefix_app.
  rewrite (span_app _ w1) by (auto; head_char). cbn [snd].
  rewrite strip_prefix_app.
  rewrite (span_app _ w2) by (auto; head_char).
  destruct w2 as [|x w2]; [congruence|].
  rewrite strip_prefix_app. cbn [app].
  rewrite (span_app _ v) by (auto; intros c r E; inversion E; reflexivity).
  destruct v as [|y v]; [congruence|].
  rewrite (span_app _ w3) by (auto; head_char). cbn [snd].
  rewrite strip_prefix_app. reflexivity.
Qed.

(** Every match is an occurrence of the written-out syntax. *)
Lemma match_include_sound (s v rest : str) :
  match_include s = Some (v, rest) ->
  exists d, valid_directive v d /\ s = d ++ rest.
Proof.
  unfold match_include.
  destruct (strip_prefix (lit "<!--") s) as [s1|] eqn:E1; [|discriminate].
  destruct (span is_space s1) as [w1 s1'] eqn:S1. cbn [snd].
  destruct (strip_prefix (lit "#include") s1') as [s2|] eqn:E2; [|discriminate].
  destruct (span is_space s2) as [w2 s3] eqn:S2.
  destruct w2 as [|x w2]; [discriminate|].
  destruct (strip_prefix (lit "virtual=") s3) as [[|q s4]|] eqn:E3;
    try discriminate.
  destruct (N.eqb_spec q 34); [subst q|].
  2:{ destruct q as [|p]; [discriminate|].
      repeat (destruct p as [p|p|]; try discriminate; try congruence). }
  destruct (span (fun c => negb (c =? quote)) s4) as [v' s5] eqn:S4.
  destruct v' as [|y v']; [discriminate|].
  destruct s5 as [|q s6]; [discriminate|].
  destruct (N.eqb_spec q 34); [subst q|].
  2:{ destruct q as [|p]; [discriminate|].
      repeat (destruct p as [p|p|]; try discriminate; try congruence). }
  destruct (span is_space s6) as [w3 s7] eqn:S6. cbn [snd].
  destruct (strip_prefix (lit "-->") s7) as [s8|] eqn:E4; [|discriminate].
  cbn [option_map]. intro H. inversion H; subst v rest. clear H.
  apply strip_prefix_some in E1, E2, E3, E4.
  apply span_split in S1 as (-> & Hw1 & _).
  apply span_split in S2 as (-> & Hw2 & _).
  apply span_split in S4 as (-> & Hv & _).
  apply span_split in S6 as (-> & Hw3 & _).
  exists (directive w1 (x :: w2) (y :: v') w3). split.
  - exists w1, (x :: w2), w3. repeat split; auto; discriminate.
  - subst. unfold directive. repeat rewrite <- app_assoc. reflexivity.
Qed.

Lemma match_include_shorter (s v rest : str) :
  match_include s = Some (v, rest) ->
  exists pre, s = pre ++ rest /\ pre <> [].
Proof.
  intro H. apply match_include_sound in H as (d & (w1 & w2 & w3 & Hd) & ->).
  exists d. split; [reflexivity|].
  destruct Hd as (_ & _ & _ & _ & _ & _ & ->). unfold directive. cbn. discriminate.
Qed.

(** The pattern does not match at an occurrence without a blank after
    [#include] or with an empty path. *)
Lemma match_include_no_blank (w1 v w3 rest : str) :
  forallb is_space w1 = true ->
  match_include (directive w1 [] v w3 ++ rest) = None.
Proof.
  intro H1. unfold match_include, directive. repeat rewrite <- app_assoc.
  rewrite strip_prefix_app.
  rewrite (span_app _ w1) by (auto; head_char). cbn [snd].
  rewrite strip_prefix_app. reflexivity.
Qed.

Lemma match_include_empty_path (w1 w2 w3 rest : str) :
  forallb is_space w1 = true -> forallb is_space w2 = true ->
  match_include (directive w1 w2 [] w3 ++ rest) = None.
Proof.
  intros H1 H2. destruct w2 as [|x w2]; [now apply match_include_no_blank|].
  unfold match_include, directive. repeat rewrite <- app_assoc.
  rewrite strip_prefix_app.
  rewrite (span_app _ w1) by (auto; head_char). cbn [snd].
  rewrite strip_prefix_app.
  rewrite (span_app _ (x :: w2)) by (auto; head_char).
  rewrite strip_prefix_app. reflexivity.
Qed.

Lemma firstn_app_length {A} (a b : list A) : firstn (length a) (a ++ b) = a.
Proof. induction a as [|x a IH]; simpl; [reflexivity|]. now rewrite IH. Qed.

Lemma scan_fuel_enough (n m : nat) (s : str) :
  (length s <= n)%nat -> (length s <= m)%nat -> scan_fuel n s = scan_fuel m s.
Proof.
  revert m s. induction n as [|n IH]; intros m s Hn Hm.
  - destruct s; [|simpl in Hn; lia]. destruct m; reflexivity.
  - destruct m as [|m].
    + destruct s; [reflexivity | simpl in Hm; lia].
    + destruct s as [|c s']; [reflexivity|]. simpl.
      destruct (match_include (c :: s')) as [[v rest]|] eqn:E.
      * destruct (match_include_shorter _ _ _ E) as (pre & Hs & Hpre).
        assert (length (c :: s') = length pre + length rest)%nat as L
          by (rewrite Hs; apply length_app).
        destruct pre; [congruence|]. simpl in L.
        f_equal. apply IH; simpl in *; lia.
      * f_equal. apply IH; simpl in *; lia.
Qed.

Lemma scan_fuel_S (n : nat) (c : N) (s' : str) :
  scan_fuel (S n) (c :: s') =
  match match_include (c :: s') with
  | Some (v, rest) =>
    Directive v (firstn (length (c :: s') - length rest) (c :: s')) :: scan_fuel n rest
  | None => Text c :: scan_fuel n s'
  end.
Proof. reflexivity. Qed.

Lemma scan_nil : scan [] = [].
Proof. reflexivity. Qed.

Lemma scan_text (c : N) (s : str) :
  match_include (c :: s) = None -> scan (c :: s) = Text c :: scan s.
Proof.
  intro E. unfold scan at 1. simpl. rewrite E. reflexivity.
Qed.

Lemma scan_directive (s v rest : str) :
  match_include s = Some (v, rest) ->
  exists pre, s = pre ++ rest /\ scan s = Directive v pre :: scan rest.
Proof.
  intro E. destruct (match_include_shorter _ _ _ E) as (pre & Hs & Hpre).
  exists pre. split; [exact Hs|].
  destruct s as [|c s']; [destruct pre; discriminate|].
  unfold scan at 1.
  change (scan_fuel (length (c :: s')) (c :: s'))
    with (scan_fuel (S (length s')) (c :: s')).
  rewrite scan_fuel_S, E.
  assert (length (c :: s') = length pre + length rest)%nat as L
    by (rewrite Hs; apply length_app).
  assert (firstn (length (c :: s') - length rest) (c :: s') = pre) as F.
  { rewrite Hs, length_app. replace (length pre + length rest - length rest)%nat
      with (length pre) by lia. apply firstn_app_length. }
  rewrite F. f_equal.
  destruct pre; [congruence|]. simpl in L. apply scan_fuel_enough; lia.
Qed.

(** The segments cover the input exactly. *)
Lemma scan_raw (s : str) : concat (map raw_of (scan s)) = s.
Proof.
  unfold scan. generalize (length s) as n. intro n. revert s.
  induction n as [|n IH]; intros s; simpl.
  - induction s as [|c s IHs]; [reflexivity|]. simpl. now rewrite IHs.
  - destruct s as [|c s']; [reflexivity|].
    destruct (match_include (c :: s')) as [[v rest]|] eqn:E.
    + destruct (match_include_shorter _ _ _ E) as (pre & Hs & _).
      cbn [map concat]. rewrite IH.
      assert (length (c :: s') - length rest = length pre)%nat as L.
      { rewrite Hs, length_app. lia. }
      rewrite L. rewrite Hs at 1. rewrite firstn_app_length. symmetry. exact Hs.
    + simpl. now rewrite IH.
Qed.

(** Scanning resumes at every segment boundary. *)
Lemma scan_resume (segs1 segs2 : list segment) (a y : str) :
  scan (a ++ y) = segs1 ++ segs2 ->
  concat (map raw_of segs1) = a ->
  segs2 = scan y.
Proof.
  revert a. induction segs1 as [|seg segs1 IH]; intros a Hs Ha.
  - simpl in *. subst a. simpl in Hs. congruence.
  - simpl in Ha. destruct (a ++ y) as [|c x'] eqn:Ex.
    { rewrite scan_nil in Hs. discriminate. }
    destruct (match_include (c :: x')) as [[v rest]|] eqn:E.
    + destruct (scan_directive _ _ _ E) as (pre & Hx & Hsc).
      rewrite Hsc in Hs. simpl in Hs. inversion Hs as [[Hseg Hrest]].
      subst seg. simpl in Ha.
      apply (IH (concat (map raw_of segs1))); [|reflexivity].
      assert (rest = concat (map raw_of segs1) ++ y) as Hr.
      { apply (app_inv_head pre). rewrite <- Hx, <- Ex, <- Ha, app_assoc. reflexivity. }
      rewrite <- Hr. congruence.
    + rewrite (scan_text _ _ E) in Hs. simpl in Hs. inversion Hs as [[Hseg Hrest]].
      subst seg. simpl in Ha.
      apply (IH (concat (map raw_of segs1))); [|reflexivity].
      subst a. simpl in Ex. inversion Ex. congruence.
Qed.

(** ** The expander only reads the filesystem *)

Lemma mapM_pure {A B} (f : A -> M B) (g : A -> B) (l : list A) (w : World) :
  (forall x, f x w = (Ok (g x), w)) -> mapM f l w = (Ok (map g l), w).
Proof.
  intro Hf. induction l as [|x l IH]; [reflexivity|].
  cbn [mapM]. unfold bind. rewrite Hf, IH. reflexivity.
Qed.

Lemma replace_include_eq (exn_str : exn -> str) (base_dir v : str) (w : World) :
  replace_include exn_str base_dir v w =
  (Ok (include_text exn_str (w_fs w) (os_path_join base_dir (unquote v))), w).
Proof.
  unfold replace_include, include_text, try_except, read_text_m, isfile_m,
    exists_m, bind, get_fs, ret, lift.
  set (p := os_path_join base_dir (unquote v)).
  unfold os_path_exists, os_path_isfile. cbv beta iota zeta.
  destruct (stat (w_fs w) p) as [[|rd data]|] eqn:E; cbv beta iota;
    rewrite ?E; cbv beta iota; try reflexivity.
  destruct (read_text (w_fs w) p); reflexivity.
Qed.

Lemma handle_includes_eq (exn_str : exn -> str) (content base_dir : str) (w : World) :
  handle_includes exn_str content base_dir w =
  (Ok (expand exn_str (w_fs w) content base_dir), w).
Proof.
  unfold handle_includes, bind.
  rewrite (mapM_pure _ (render exn_str (w_fs w) base_dir)).
  - reflexivity.
  - intros [c|v raw]; [reflexivity|]. apply replace_include_eq.
Qed.

(** ** Frame lemmas *)

Lemma frame_ret {A} (a : A) : frame (ret a).
Proof. intros fs cwd. exists (Ok a), []. intro. now rewrite app_nil_r. Qed.

Lemma frame_lift {A} (r : res A) : frame (lift r).
Proof. intros fs cwd. exists r, []. intro. now rewrite app_nil_r. Qed.

Lemma frame_get_fs : frame get_fs.
Proof. intros fs cwd. exists (Ok fs), []. intro. now rewrite app_nil_r. Qed.

Lemma frame_getcwd : frame os_getcwd.
Proof. intros fs cwd. exists (Ok cwd), []. intro. now rewrite app_nil_r. Qed.

Lemma frame_emit (e : event) : frame (emit e).
Proof. intros fs cwd. exists (Ok tt), [e]. reflexivity. Qed.

Lemma frame_bind {A B} (m : M A) (k : A -> M B) :
  frame m -> (forall a, frame (k a)) -> frame (bind m k).
Proof.
  intros Hm Hk fs cwd. destruct (Hm fs cwd) as (r & evs & H).
  destruct r as [a|e].
  - destruct (Hk a fs cwd) as (r' & evs' & H').
    exists r', (evs ++ evs'). intro out. unfold bind. rewrite H, H', app_assoc.
    reflexivity.
  - exists (Raise e), evs. intro out. unfold bind. now rewrite H.
Qed.

Lemma frame_try {A} (m : M A) (caught : exn -> bool) (h : exn -> M A) :
  frame m -> (forall e, frame (h e)) -> frame (try_except m caught h).
Proof.
  intros Hm Hh fs cwd. destruct (Hm fs cwd) as (r & evs & H).
  destruct r as [a|e].
  - exists (Ok a), evs. intro out. unfold try_except. now rewrite H.
  - destruct (caught e) eqn:C.
    + destruct (Hh e fs cwd) as (r' & evs' & H').
      exists r', (evs ++ evs'). intro out. unfold try_except.
      rewrite H, C, H', app_assoc. reflexivity.
    + exists (Raise e), evs. intro out. unfold try_except. now rewrite H, C.
Qed.

Lemma frame_mapM {A B} (f : A -> M B) (l : list A) :
  (forall x, frame (f x)) -> frame (mapM f l).
Proof.
  intro Hf. induction l as [|x l IH]; cbn [mapM].
  - apply frame_ret.
  - apply frame_bind; [apply Hf|]. intro. apply frame_bind; [exact IH|].
    intro. apply frame_ret.
Qed.

Create HintDb frame.
#[local] Hint Resolve frame_ret frame_lift frame_get_fs frame_getcwd frame_emit
  : frame.

Ltac frame_step :=
  match goal with
  | |- frame (bind _ _) => apply frame_bind; [|intro]
  | |- frame (try_except _ _ _) => apply frame_try; [|intro]
  | |- frame (if ?b then _ else _) => destruct b
  | |- frame (match ?x with _ => _ end) => destruct x
  | |- frame _ => solve [auto with frame]
  end.

Lemma frame_handle_includes (exn_str : exn -> str) (content base_dir : str) :
  frame (handle_includes exn_str content base_dir).
Proof.
  unfold handle_includes. apply frame_bind; [|intro; apply frame_ret].
  apply frame_mapM. intros [c|v raw]; cbn [sub_segment]; [apply frame_ret|].
  unfold replace_include, exists_m, isfile_m, read_text_m. cbv zeta.
  repeat frame_step.
Qed.

Lemma frame_send_head (translate_path guess_type : str -> str)
      (exn_str : exn -> str) (self_path : str) :
  frame (send_head translate_path guess_type exn_str self_path).
Proof.
  unfold send_head, serve_resolved, super_send_head, send_error, find_index,
    index_names, isdir_m, exists_m, open_rb_m. cbv zeta.
  repeat first [ frame_step | apply frame_handle_includes ].
Qed.

(** ** Running [send_head] *)

Ltac unfold_handler :=
  unfold send_head, find_index, index_names, super_send_head, send_error,
    isdir_m, exists_m, isfile_m, open_rb_m, os_getcwd, get_fs, emit, bind,
    ret, lift, try_except.

Lemma isdir_exists (fs : FS) (p : str) :
  os_path_exists fs p = false -> os_path_isdir fs p = false.
Proof. unfold os_path_exists, os_path_isdir. destruct (stat fs p); congruence. Qed.

Lemma exists_isfile (fs : FS) (p : str) :
  os_path_isfile fs p = true -> os_path_exists fs p = true.
Proof.
  unfold os_path_exists, os_path_isfile. destruct (stat fs p) as [[]|]; congruence.
Qed.

Lemma isdir_isfile (fs : FS) (p : str) :
  os_path_isfile fs p = true -> os_path_isdir fs p = false.
Proof.
  unfold os_path_isdir, os_path_isfile. destruct (stat fs p) as [[]|]; congruence.
Qed.



Ltac crunch :=
  repeat (cbv beta iota zeta delta [negb is_OSError];
          match goal with
          | H : os_path_exists ?f ?p = _ |- context [os_path_exists ?f ?p] => rewrite H
          | H : os_path_isdir ?f ?p = _ |- context [os_path_isdir ?f ?p] => rewrite H
          | H : ends_with ?a ?b = _ |- context [ends_with ?a ?b] => rewrite H
          end);
  cbv beta iota zeta delta [negb is_OSError].

(** [send_head] ends in [serve_resolved], in the base class, or in a 404. *)
Lemma send_head_routes (translate_path guess_type : str -> str)
      (exn_str : exn -> str) (self_path : str) (w : World) :
  (exists q, os_path_exists (w_fs w) q = true /\
             send_head translate_path guess_type exn_str self_path w =
             serve_resolved guess_type exn_str q w) \/
  send_head translate_path guess_type exn_str self_path w = (Ok RSuper, w) \/
  send_head translate_path guess_type exn_str self_path w =
  (Ok RNone, mkWorld (w_fs w) (w_cwd w)
                     (w_out w ++ [ESendError 404 (lit "File not found")])).
Proof.
  unfold_handler. crunch.
  destruct (os_path_isdir (w_fs w) (translate_path self_path)) eqn:Hd; crunch.
  - destruct (os_path_exists (w_fs w)
                (os_path_join (translate_path self_path) (lit "index.html"))) eqn:H1;
      crunch.
    + left. eexists. split; [exact H1|reflexivity].
    + destruct (os_path_exists (w_fs w)
                  (os_path_join (translate_path self_path) (lit "index.htm"))) eqn:H2;
        crunch.
      * left. eexists. split; [exact H2|reflexivity].
      * right. left. reflexivity.
  - destruct (os_path_exists (w_fs w) (translate_path self_path)) eqn:Hx; crunch.
    + left. eexists. split; [exact Hx|reflexivity].
    + destruct (ends_with (lit ".html") self_path) eqn:He; crunch.
      * destruct (os_path_exists (w_fs w)
                    (os_path_join (w_cwd w) (lit "index.html"))) eqn:Hs; crunch.
        -- left. eexists. split; [exact Hs|reflexivity].
        -- right. right. reflexivity.
      * right. left. reflexivity.
Qed.

Lemma send_head_file (translate_path guess_type : str -> str)
      (exn_str : exn -> str) (self_path : str) (w : World) :
  os_path_isfile (w_fs w) (translate_path self_path) = true ->
  send_head translate_path guess_type exn_str self_path w =
  serve_resolved guess_type exn_str (translate_path self_path) w.
Proof.
  intro Hf. pose proof (isdir_isfile _ _ Hf) as Hd.
  pose proof (exists_isfile _ _ Hf) as Hx.
  unfold_handler. crunch. reflexivity.
Qed.

(** What an HTML answer of [serve_resolved] is made of. *)
Lemma serve_resolved_bytesio (guess_type : str -> str) (exn_str : exn -> str)
      (q : str) (w w' : World) (body : bytes) :
  serve_resolved guess_type exn_str q w = (Ok (RBytesIO body), w') ->
  exists data content,
    stat (w_fs w) q = Some (NFile true data) /\ guess_type q = text_html /\
    utf8_decode data = Some content /\
    utf8_encode (expand exn_str (w_fs w) content (os_path_dirname q)) = Some body /\
    w' = mkWorld (w_fs w) (w_cwd w)
           (w_out w ++ [EResponse 200;
                        EHeader (lit "Content-type") text_html;
                        EHeader (lit "Content-Length") (str_of_nat (length body));
                        EEndHeaders]).
Proof.
  unfold serve_resolved. unfold_handler. crunch.
  rewrite open_rb_stat.
  destruct (stat (w_fs w) q) as [[|[|] data]|] eqn:Hs; crunch;
    [ intro H; discriminate H | | intro H; discriminate H
    | destruct (existsb (N.eqb 0) q); crunch; intro H; discriminate H ].
  destruct (str_eqb (guess_type q) text_html) eqn:Ht; crunch;
    [|intro H; discriminate H].
  apply str_eqb_eq in Ht.
  destruct (utf8_decode data) as [c|] eqn:Hd; crunch; [|intro H; discriminate H].
  rewrite handle_includes_eq. crunch.
  destruct (utf8_encode (expand exn_str (w_fs w) c (os_path_dirname q))) as [b|] eqn:He;
    crunch; [|intro H; discriminate H].
  intro H. injection H as <-. subst w'. exists data, c.
  split; [reflexivity|]. split; [exact Ht|]. split; [exact Hd|].
  split; [exact He|]. simpl. rewrite Ht. repeat rewrite <- app_assoc. reflexivity.
Qed.

(** Every segment the scan calls a directive is an occurrence of the
    syntax. *)
Lemma scan_sound (s v d : str) :
  In (Directive v d) (scan s) -> valid_directive v d.
Proof.
  unfold scan. generalize (length s) as n. intro n. revert s.
  induction n as [|n IH]; intros s Hin.
  - apply in_map_iff in Hin as (c & Hc & _). discriminate Hc.
  - destruct s as [|c s']; [destruct Hin|].
    rewrite scan_fuel_S in Hin.
    destruct (match_include (c :: s')) as [[v' rest]|] eqn:E.
    + destruct Hin as [Heq|Hin]; [|exact (IH _ Hin)].
      apply match_include_sound in E as (d' & Hv & Hs).
      assert (length (c :: s') - length rest = length d')%nat as L
        by (rewrite Hs, length_app; lia).
      rewrite L, Hs, firstn_app_length in Heq. injection Heq as <- <-. exact Hv.
    + destruct Hin as [Heq|Hin]; [discriminate Heq | exact (IH _ Hin)].
Qed.

Lemma include_text_readable (exn_str : exn -> str) (fs : FS) (p : str)
      (data : bytes) (t : str) :
  stat fs p = Some (NFile true data) -> utf8_decode data = Some t ->
  include_text exn_str fs p = translate_newlines t.
Proof.
  intros Hs Hd. unfold include_text, os_path_isfile, read_text.
  rewrite open_rb_stat, Hs, Hd. reflexivity.
Qed.

(** ** The claims *)


(** C4: for a request path translated to a directory, [index.html] is
    chosen when it exists, else [index.htm] when it exists, else the request
    goes to [SimpleHTTPRequestHandler.send_head]. *)
Theorem directory_index_choice (translate_path guess_type : str -> str)
  (exn_str : exn -> str) (self_path : str) (w : World) :
  os_path_isdir (w_fs w) (translate_path self_path) = true ->
  let html := os_path_join (translate_path self_path) (lit "index.html") in
  let htm := os_path_join (translate_path self_path) (lit "index.htm") in
  (os_path_exists (w_fs w) html = true ->
   send_head translate_path guess_type exn_str self_path w =
   serve_resolved guess_type exn_str html w) /\
  (os_path_exists (w_fs w) html = false -> os_path_exists (w_fs w) htm = true ->
   send_head translate_path guess_type exn_str self_path w =
   serve_resolved guess_type exn_str htm w) /\
  (os_path_exists (w_fs w) html = false -> os_path_exists (w_fs w) htm = false ->
   send_head translate_path guess_type exn_str self_path w = (Ok RSuper, w)).
Proof.
  intros Hd html htm. split; [|split].
  - intro H1. unfold_handler. fold html.
    repeat (cbv beta iota zeta delta [negb]; first [rewrite Hd | rewrite H1]).
    reflexivity.
  - intros H1 H2. unfold_handler. fold html htm.
    repeat (cbv beta iota zeta delta [negb]; first [rewrite Hd | rewrite H1 | rewrite H2]).
    reflexivity.
  - intros H1 H2. unfold_handler. fold html htm.
    repeat (cbv beta iota zeta delta [negb]; first [rewrite Hd | rewrite H1 | rewrite H2]).
    reflexivity.
Qed.

(** C5: for a request path not ending in [.html] whose translated path does
    not exist, [send_head] returns [super().send_head()] and writes nothing
    itself. *)
Theorem missing_non_html_delegates (translate_path guess_type : str -> str)
  (exn_str : exn -> str) (self_path : str) (w : World) :
  ends_with (lit ".html") self_path = false ->
  os_path_exists (w_fs w) (translate_path self_path) = false ->
  send_head translate_path guess_type exn_str self_path w = (Ok RSuper, w).
Proof.
  intros He Hx. pose proof (isdir_exists _ _ Hx) as Hd.
  unfold_handler.
  repeat (cbv beta iota zeta delta [negb]; first [rewrite Hd | rewrite Hx | rewrite He]).
  reflexivity.
Qed.

(** C6: every [text/html] answer of [send_head] is the UTF-8 encoding of the
    fully expanded document, and its [Content-Length] header is the byte
    length of that body; the headers are written once the body is built and
    the body itself is returned, not written by [send_head]. *)
Theorem html_content_length (translate_path guess_type : str -> str)
  (exn_str : exn -> str) (self_path : str) (w w' : World) (body : bytes) :
  send_head translate_path guess_type exn_str self_path w = (Ok (RBytesIO body), w') ->
  exists q data content,
    stat (w_fs w) q = Some (NFile true data) /\ guess_type q = text_html /\
    utf8_decode data = Some content /\
    utf8_encode (expand exn_str (w_fs w) content (os_path_dirname q)) = Some body /\
    w' = mkWorld (w_fs w) (w_cwd w)
           (w_out w ++ [EResponse 200;
                        EHeader (lit "Content-type") text_html;
                        EHeader (lit "Content-Length") (str_of_nat (length body));
                        EEndHeaders]).
Proof.
  intro H.
  destruct (send_head_routes translate_path guess_type exn_str self_path w)
    as [(q & _ & Hq) | [Hs | Hs]].
  - rewrite Hq in H. exists q. exact (serve_resolved_bytesio _ _ _ _ _ _ H).
  - rewrite Hs in H. discriminate.
  - rewrite Hs in H. discriminate.
Qed.

(** C7: [send_head] only reads the filesystem and the working directory,
    and what it answers and writes does not depend on earlier output: run
    twice on an unchanged filesystem, it gives the same result and writes
    the same events again. *)
Theorem send_head_repeatable (translate_path guess_type : str -> str)
  (exn_str : exn -> str) (self_path : str) (w : World) :
  match send_head translate_path guess_type exn_str self_path w with
  | (r1, w1) =>
    match send_head translate_path guess_type exn_str self_path w1 with
    | (r2, w2) =>
      r1 = r2 /\ w_fs w1 = w_fs w /\ w_cwd w1 = w_cwd w /\
      exists evs, w_out w1 = w_out w ++ evs /\ w_out w2 = w_out w1 ++ evs
    end
  end.
Proof.
  destruct w as [fs cwd out].
  destruct (frame_send_head translate_path guess_type exn_str self_path fs cwd)
    as (r & evs & H).
  rewrite H, H. simpl. repeat split. exists evs. split; reflexivity.
Qed.

(** C10: when the resolved file is [text/html] and its bytes are not valid
    UTF-8, the [UnicodeDecodeError] of [decode] leaves [send_head]
    uncaught, with nothing written: no 404 and no inline comment. *)
Theorem html_decode_error_uncaught (translate_path guess_type : str -> str)
  (exn_str : exn -> str) (q : str) (data : bytes) (w : World) :
  stat (w_fs w) q = Some (NFile true data) ->
  guess_type q = text_html ->
  utf8_decode data = None ->
  serve_resolved guess_type exn_str q w = (Raise UnicodeDecodeError, w) /\
  (forall self_path, translate_path self_path = q ->
     send_head translate_path guess_type exn_str self_path w =
     (Raise UnicodeDecodeError, w)).
Proof.
  intros Hs Ht Hd.
  assert (serve_resolved guess_type exn_str q w = (Raise UnicodeDecodeError, w)) as Hsr.
  { unfold serve_resolved. unfold_handler. crunch.
    rewrite open_rb_stat, Hs, Ht. crunch.
    assert (str_eqb text_html text_html = true) as E by (apply str_eqb_eq; reflexivity).
    rewrite E, Hd. reflexivity. }
  split; [exact Hsr|].
  intros self_path Hq. rewrite send_head_file.
  - now rewrite Hq.
  - rewrite Hq. unfold os_path_isfile. now rewrite Hs.
Qed.

(** C3: the expander never raises; a directive whose candidate is not a
    regular file becomes [<!-- File not found: p -->], one whose read
    raises [e] becomes [<!-- Error including p: e -->], and a readable one
    becomes the file's text. *)
Theorem include_failures_inline (exn_str : exn -> str) :
  (forall content base_dir w,
     exists out, handle_includes exn_str content base_dir w = (Ok out, w)) /\
  (forall base_dir v w,
     let p := os_path_join base_dir (unquote v) in
     (os_path_isfile (w_fs w) p = false ->
      replace_include exn_str base_dir v w = (Ok (not_found_comment p), w)) /\
     (forall e, os_path_isfile (w_fs w) p = true -> read_text (w_fs w) p = Raise e ->
      replace_include exn_str base_dir v w = (Ok (error_comment exn_str p e), w)) /\
     (forall t, os_path_isfile (w_fs w) p = true -> read_text (w_fs w) p = Ok t ->
      replace_include exn_str base_dir v w = (Ok t, w))).
Proof.
  split.
  - intros content base_dir w. eexists. apply handle_includes_eq.
  - intros base_dir v w p. rewrite replace_include_eq. fold p.
    unfold include_text. split; [|split].
    + intro Hf. now rewrite Hf.
    + intros e Hf Hr. now rewrite Hf, Hr.
    + intros t Hf Hr. now rewrite Hf, Hr.
Qed.

(** C2 (as amended): expansion is one pass of [pattern.sub]: the input is
    cut into characters outside any match and matched directives, the
    characters are kept, and each directive is replaced by what
    [replace_include] returns, which for a readable file is its text as a
    text-mode read gives it (decoded, newlines translated) and is not
    scanned again. *)
Theorem include_expansion_single_pass (exn_str : exn -> str)
  (content base_dir : str) (w : World) :
  concat (map raw_of (scan content)) = content /\
  (forall v d, In (Directive v d) (scan content) -> valid_directive v d) /\
  handle_includes exn_str content base_dir w =
    (Ok (concat (map (render exn_str (w_fs w) base_dir) (scan content))), w) /\
  (forall c, render exn_str (w_fs w) base_dir (Text c) = [c]) /\
  (forall v d data t,
     stat (w_fs w) (os_path_join base_dir (unquote v)) = Some (NFile true data) ->
     utf8_decode data = Some t ->
     render exn_str (w_fs w) base_dir (Directive v d) = translate_newlines t).
Proof.
  split; [apply scan_raw|]. split; [intros v d; apply scan_sound|].
  split; [apply handle_includes_eq|]. split; [reflexivity|].
  intros v d data t Hs Hd. cbn [render]. exact (include_text_readable _ _ _ _ _ Hs Hd).
Qed.

(** C8 (as amended): take an occurrence [d] at a position the left-to-right
    scan reaches, that is, one not starting inside an earlier match.  If it
    has [<!--], blanks, [#include], at least one blank, [virtual=], a quoted
    non-empty path without quotes, blanks and [-->], it is recognised and
    expanded.  If it has no blank after [#include], or an empty path, no
    match starts there: its [<] is kept as text and the scan goes on. *)
Theorem directive_recognized (exn_str : exn -> str) (a d b v base_dir : str)
  (segs1 segs2 : list segment) (w : World) :
  scan (a ++ d ++ b) = segs1 ++ segs2 ->
  concat (map raw_of segs1) = a ->
  (valid_directive v d ->
   segs2 = Directive v d :: scan b /\
   handle_includes exn_str (a ++ d ++ b) base_dir w =
   (Ok (concat (map (render exn_str (w_fs w) base_dir) segs1)
        ++ include_text exn_str (w_fs w) (os_path_join base_dir (unquote v))
        ++ expand exn_str (w_fs w) b base_dir), w)) /\
  (forall w1 w2 v' w3,
     forallb is_space w1 = true -> forallb is_space w2 = true ->
     (w2 = [] \/ v' = []) -> d = directive w1 w2 v' w3 ->
     exists rest, d ++ b = 60 :: rest /\ segs2 = Text 60 :: scan rest).
Proof.
  intros Hscan Hraw. split.
  - intros (w1 & w2 & w3 & H1 & H2 & H2n & H3 & Hv & Hq & ->).
    assert (segs2 = Directive v (directive w1 w2 v w3) :: scan b) as Hsegs.
    { rewrite (scan_resume _ _ _ _ Hscan Hraw).
      pose proof (match_include_directive _ _ _ _ b H1 H2 H2n H3 Hv Hq) as E.
      destruct (scan_directive _ _ _ E) as (pre & Hpre & ->).
      apply app_inv_tail in Hpre. now subst pre. }
    split; [exact Hsegs|].
    rewrite handle_includes_eq. unfold expand at 1. rewrite Hscan, Hsegs.
    rewrite map_app, concat_app. reflexivity.
  - intros w1 w2 v' w3 H1 H2 Hor ->.
    assert (match_include (directive w1 w2 v' w3 ++ b) = None) as E.
    { destruct Hor as [->| ->];
        [apply match_include_no_blank | apply match_include_empty_path]; assumption. }
    rewrite (scan_resume _ _ _ _ Hscan Hraw).
    eexists. split; [reflexivity|].
    unfold directive in *. cbn [lit list_ascii_of_string map app] in *.
    apply scan_text. exact E.
Qed.

(** C9 (as amended): the candidate is [os.path.join(base_dir, unquote(v))]:
    a decoded path not starting with ['/'] is appended to [base_dir] (with a
    ['/'] between them unless [base_dir] is empty or ends with one); a
    decoded path starting with ['/'] is used as it is and [base_dir] is
    dropped. *)
Theorem include_candidate_path (exn_str : exn -> str) (base_dir v : str) (w : World) :
  let u := unquote v in
  let sep := match base_dir with
             | [] => []
             | _ :: _ => if ends_with [slash] base_dir then [] else [slash]
             end in
  (starts_with [slash] u = false ->
   replace_include exn_str base_dir v w =
   (Ok (include_text exn_str (w_fs w) (base_dir ++ sep ++ u)), w)) /\
  (starts_with [slash] u = true ->
   replace_include exn_str base_dir v w = (Ok (include_text exn_str (w_fs w) u), w)).
Proof.
  intros u sep. rewrite replace_include_eq. fold u. unfold os_path_join.
  split; intro Hs; rewrite Hs; [|reflexivity].
  subst sep. destruct base_dir as [|x bd]; [reflexivity|].
  destruct (ends_with [slash] (x :: bd)); reflexivity.
Qed.

(** * Witnesses and counterexamples *)

Example demo_root_page :
  send_head demo_translate demo_guess demo_exn_str (lit "/") demo_world =
  (Ok (RBytesIO demo_index_body),
   mkWorld demo_fs (lit "/srv")
     [EResponse 200; EHeader (lit "Content-type") text_html;
      EHeader (lit "Content-Length") (lit "24"); EEndHeaders]).
Proof. vm_compute. reflexivity. Qed.

Example demo_nested_include_kept :
  expand demo_exn_str demo_fs
    (directive [32] [32] (lit "index.html") [32]) (lit "/srv") =
  lit "<h1>" ++ directive [32] [32] (lit "nav.html") [32] ++ lit "</h1>".
Proof. vm_compute. reflexivity. Qed.


Lemma directory_index_choice_witness :
  send_head demo_translate demo_guess demo_exn_str (lit "/docs/") demo_world =
  serve_resolved demo_guess demo_exn_str (lit "/srv/docs/index.htm") demo_world.
Proof.
  refine (proj1 (proj2 (directory_index_choice demo_translate demo_guess demo_exn_str
                          (lit "/docs/") demo_world _)) _ _);
    vm_compute; reflexivity.
Defined.

Lemma missing_non_html_delegates_witness :
  send_head demo_translate demo_guess demo_exn_str (lit "/data.json") demo_world =
  (Ok RSuper, demo_world).
Proof.
  apply missing_non_html_delegates; vm_compute; reflexivity.
Defined.

Lemma html_content_length_witness :
  exists q data content,
    stat demo_fs q = Some (NFile true data) /\ utf8_decode data = Some content /\
    utf8_encode (expand demo_exn_str demo_fs content (os_path_dirname q))
    = Some demo_index_body.
Proof.
  destruct (html_content_length demo_translate demo_guess demo_exn_str (lit "/")
              demo_world
              (snd (send_head demo_translate demo_guess demo_exn_str (lit "/") demo_world))
              demo_index_body) as (q & data & content & H1 & _ & H3 & H4 & _).
  - vm_compute. reflexivity.
  - exists q, data, content. split; [exact H1|]. split; [exact H3|exact H4].
Defined.

Lemma html_decode_error_uncaught_witness :
  send_head demo_translate demo_guess demo_exn_str (lit "/bad.html") demo_world =
  (Raise UnicodeDecodeError, demo_world).
Proof.
  refine (proj2 (html_decode_error_uncaught demo_translate demo_guess demo_exn_str
                   (lit "/srv/bad.html") [Byte.xff] demo_world _ _ _)
                (lit "/bad.html") _);
    vm_compute; reflexivity.
Defined.

Lemma directive_recognized_witness :
  handle_includes demo_exn_str
    (lit "x" ++ directive [32] [32] (lit "nav.html") [32] ++ lit "y")
    (lit "/srv") demo_world =
  (Ok (lit "x" ++ include_text demo_exn_str demo_fs (lit "/srv/nav.html")
       ++ expand demo_exn_str demo_fs (lit "y") (lit "/srv")), demo_world).
Proof.
  refine (proj2 (proj1 (directive_recognized demo_exn_str (lit "x")
                   (directive [32] [32] (lit "nav.html") [32]) (lit "y")
                   (lit "nav.html") (lit "/srv") [Text 120]
                   (Directive (lit "nav.html") (directive [32] [32] (lit "nav.html") [32])
                    :: scan (lit "y"))
                   demo_world _ _) _)).
  - vm_compute. reflexivity.
  - vm_compute. reflexivity.
  - exists [32], [32], [32]. vm_compute.
    repeat split; reflexivity || discriminate.
Defined.

(** C2, counterexample: a file with CRLF line ends is not inserted as it
    is decoded: the text-mode read turns ["\r\n"] into ["\n"]. *)
Lemma include_not_verbatim :
  ~ (forall exn_str base_dir v w data t,
       v <> [] -> no_quote v = true ->
       stat (w_fs w) (os_path_join base_dir (unquote v)) = Some (NFile true data) ->
       utf8_decode data = Some t ->
       fst (handle_includes exn_str (directive [32] [32] v [32]) base_dir w) = Ok t).
Proof.
  intro H.
  specialize (H demo_exn_str (lit "/srv") (lit "crlf.html") demo_world
                (bytes_of [97; 13; 10; 98]) [97; 13; 10; 98]).
  assert (fst (handle_includes demo_exn_str
                 (directive [32] [32] (lit "crlf.html") [32]) (lit "/srv") demo_world)
          = Ok [97; 10; 98]) as E by (vm_compute; reflexivity).
  rewrite H in E; [discriminate E | discriminate | vm_compute; reflexivity
                  | vm_compute; reflexivity | vm_compute; reflexivity].
Qed.

(** C8, counterexample: an empty path is not recognised. *)
Lemma empty_path_not_expanded :
  ~ (forall exn_str base_dir w w1 w2 v w3,
       forallb is_space w1 = true -> forallb is_space w2 = true ->
       forallb is_space w3 = true -> no_quote v = true ->
       handle_includes exn_str (directive w1 w2 v w3) base_dir w =
       (Ok (include_text exn_str (w_fs w) (os_path_join base_dir (unquote v))), w)).
Proof.
  intro H.
  specialize (H demo_exn_str (lit "/srv") demo_world [32] [32] [] [32]
                eq_refl eq_refl eq_refl eq_refl).
  vm_compute in H. discriminate H.
Qed.

(** C8, two more occurrences the pattern leaves alone: no blank after
    [#include], and one starting inside an earlier match. *)
Example no_blank_after_include_kept :
  expand demo_exn_str demo_fs (directive [] [] (lit "nav.html") []) (lit "/srv") =
  directive [] [] (lit "nav.html") [].
Proof. vm_compute. reflexivity. Qed.

Example overlapping_occurrence_kept :
  let inner := lit "<!-- #include virtual=" ++ [quote] ++ lit " -->x" ++ [quote]
               ++ lit " -->" in
  expand demo_exn_str demo_fs (lit "<!-- #include virtual=" ++ [quote] ++ inner)
    (lit "/srv") =
  not_found_comment (lit "/srv/<!-- #include virtual=")
  ++ lit "x" ++ [quote] ++ lit " -->".
Proof. vm_compute. reflexivity. Qed.

Lemma include_text_empty (exn_str : exn -> str) (p : str) :
  include_text exn_str (fun _ => None) p = not_found_comment p.
Proof.
  unfold include_text, os_path_isfile, stat. now destruct (existsb (N.eqb 0) p).
Qed.

(** C9, counterexample: [virtual="/x"] is looked up at [/x], outside
    [base_dir]. *)
Lemma absolute_include_escapes_base :
  ~ (forall exn_str base_dir v w,
       exists c, starts_with base_dir c = true /\
       replace_include exn_str base_dir v w = (Ok (include_text exn_str (w_fs w) c), w)).
Proof.
  intro H.
  destruct (H demo_exn_str (lit "/srv") (lit "/x") empty_world) as (c & Hc & E).
  rewrite replace_include_eq in E. injection E as E.
  cbn [w_fs empty_world] in E. rewrite !include_text_empty in E.
  unfold not_found_comment in E. apply app_inv_head in E. apply app_inv_tail in E.
  subst c. vm_compute in Hc. discriminate Hc.
Qed.

(** * Further properties of the code *)

(** ** Lemmas *)
Lemma dm64 x y : y < 64 -> (x*64+y)/64 = x /\ (x*64+y) mod 64 = y.
Proof. intro H. split.
 - symmetry. apply (N.div_unique _ _ _ y); [exact H| lia].
 - symmetry. apply (N.mod_unique _ _ x); [exact H | lia].
Qed.

Lemma in_range_iff lo hi b : in_range lo hi b = true <-> lo <= b <= hi.
Proof. unfold in_range. rewrite andb_true_iff, !N.leb_le. tauto. Qed.

Lemma decode_step_encode (bs : list N) (cp : N) (n : nat) :
  decode_step bs = DOk cp n -> encode_cp cp = Some (firstn n bs).
Proof.
  destruct bs as [|b0 r]; [discriminate|]. unfold decode_step. cbv zeta.
  destruct (N.ltb_spec b0 128).
  { intro Heq. injection Heq as <- <-. unfold encode_cp.
    destruct (N.ltb_spec b0 128); [reflexivity|lia]. }
  destruct (in_range 194 223 b0) eqn:R0.
  { apply in_range_iff in R0.
    destruct r as [|b1 r]; [discriminate|].
    destruct (in_range 128 191 b1) eqn:R1; [|discriminate]. apply in_range_iff in R1.
    intro Heq. injection Heq as <- <-. unfold encode_cp.
    remember (b0 - 192) as x eqn:Hx. remember (b1 - 128) as y eqn:Hy.
    destruct (dm64 x y) as [D M]; [lia|].
    destruct (N.ltb_spec (x*64+y) 128); [lia|].
    destruct (N.ltb_spec (x*64+y) 2048); [|lia].
    rewrite D, M. cbn [firstn]. f_equal. f_equal; [|f_equal]; lia. }
  destruct (in_range 224 239 b0) eqn:R0'.
  { apply in_range_iff in R0'.
    destruct r as [|b1 r]; [discriminate|].
    destruct (in_range (if b0 =? 224 then 160 else 128) (if b0 =? 237 then 159 else 191) b1) eqn:R1; [|discriminate].
    destruct r as [|b2 r]; [discriminate|].
    destruct (in_range 128 191 b2) eqn:R2; [|discriminate]. apply in_range_iff in R2.
    intro Heq. injection Heq as <- <-.
    assert (160 <= b1 <= 191 \/ b0 <> 224) as L1
      by (destruct (N.eqb_spec b0 224), (N.eqb_spec b0 237); cbv beta iota in R1; apply in_range_iff in R1; lia).
    assert (128 <= b1 <= 159 \/ b0 <> 237) as L2
      by (destruct (N.eqb_spec b0 224), (N.eqb_spec b0 237); cbv beta iota in R1; apply in_range_iff in R1; lia).
    assert (128 <= b1 <= 191) as L3
      by (destruct (N.eqb_spec b0 224), (N.eqb_spec b0 237); cbv beta iota in R1; apply in_range_iff in R1; lia).
    remember (b0 - 224) as x eqn:Hx. remember (b1 - 128) as y eqn:Hy. remember (b2 - 128) as z eqn:Hz.
    replace (x * 4096 + y * 64 + z) with ((x*64+y)*64+z) by lia.
    destruct (dm64 (x*64+y) z) as [D M]; [lia|].
    destruct (dm64 x y) as [D' M']; [lia|].
    unfold encode_cp.
    destruct (N.ltb_spec ((x*64+y)*64+z) 128); [lia|].
    destruct (N.ltb_spec ((x*64+y)*64+z) 2048); [lia|].
    destruct (in_range 55296 57343 ((x*64+y)*64+z)) eqn:S.
    { apply in_range_iff in S. lia. }
    destruct (N.ltb_spec ((x*64+y)*64+z) 65536); [|lia].
    replace 4096 with (64*64) by reflexivity. rewrite <- N.Div0.div_div, D, D', M', M.
    cbn [firstn]. f_equal. f_equal; [|f_equal; [|f_equal]]; lia. }
  destruct (in_range 240 244 b0) eqn:R0''; [|discriminate].
  apply in_range_iff in R0''.
  destruct r as [|b1 r]; [discriminate|].
  destruct (in_range (if b0 =? 240 then 144 else 128) (if b0 =? 244 then 143 else 191) b1) eqn:R1; [|discriminate].
  destruct r as [|b2 r]; [discriminate|].
  destruct (in_range 128 191 b2) eqn:R2; [|discriminate]. apply in_range_iff in R2.
  destruct r as [|b3 r]; [discriminate|].
  destruct (in_range 128 191 b3) eqn:R3; [|discriminate]. apply in_range_iff in R3.
  intro Heq. injection Heq as <- <-.
  assert (144 <= b1 <= 191 \/ b0 <> 240) as L1
    by (destruct (N.eqb_spec b0 240), (N.eqb_spec b0 244); cbv beta iota in R1; apply in_range_iff in R1; lia).
  assert (128 <= b1 <= 143 \/ b0 <> 244) as L2
    by (destruct (N.eqb_spec b0 240), (N.eqb_spec b0 244); cbv beta iota in R1; apply in_range_iff in R1; lia).
  assert (128 <= b1 <= 191) as L3
    by (destruct (N.eqb_spec b0 240), (N.eqb_spec b0 244); cbv beta iota in R1; apply in_range_iff in R1; lia).
  remember (b0 - 240) as x eqn:Hx. remember (b1 - 128) as y eqn:Hy. remember (b2 - 128) as z eqn:Hz. remember (b3 - 128) as u eqn:Hu.
  replace (x * 262144 + y * 4096 + z * 64 + u) with (((x*64+y)*64+z)*64+u) by lia.
  destruct (dm64 ((x*64+y)*64+z) u) as [D M]; [lia|].
  destruct (dm64 (x*64+y) z) as [D' M']; [lia|].
  destruct (dm64 x y) as [D'' M'']; [lia|].
  unfold encode_cp.
  destruct (N.ltb_spec (((x*64+y)*64+z)*64+u) 128); [lia|].
  destruct (N.ltb_spec (((x*64+y)*64+z)*64+u) 2048); [lia|].
  destruct (in_range 55296 57343 (((x*64+y)*64+z)*64+u)) eqn:S.
  { apply in_range_iff in S. lia. }
  destruct (N.ltb_spec (((x*64+y)*64+z)*64+u) 65536); [lia|].
  replace 262144 with (64*64*64) by reflexivity.
  replace 4096 with (64*64) by reflexivity.
  rewrite <- !N.Div0.div_div, D, D', D'', M, M', M''.
  cbn [firstn]. f_equal. f_equal; [|f_equal; [|f_equal; [|f_equal]]]; lia.
Qed.

Lemma byte_of_to_N (b : Byte.byte) : byte_of_N (Byte.to_N b) = b.
Proof. unfold byte_of_N. now rewrite Byte.of_to_N. Qed.

Lemma utf8_decode_fuel_encode (f : nat) (bs : list N) (t : str) :
  utf8_decode_fuel f bs = Some t -> utf8_encode t = Some (map byte_of_N bs).
Proof.
  revert bs t. induction f as [|f IH]; intros bs t H.
  - destruct bs; [injection H as <-; reflexivity | discriminate].
  - destruct bs as [|b0 r]; [injection H as <-; reflexivity|].
    cbn [utf8_decode_fuel] in H.
    destruct (decode_step (b0 :: r)) as [cp n|] eqn:E; [|discriminate].
    destruct (utf8_decode_fuel f (skipn n (b0 :: r))) as [t'|] eqn:E'; [|discriminate].
    injection H as <-. cbn [utf8_encode].
    rewrite (decode_step_encode _ _ _ E), (IH _ _ E').
    rewrite <- map_app, firstn_skipn. reflexivity.
Qed.



Lemma starts_with_app (p s : str) : starts_with p (p ++ s) = true.
Proof. induction p as [|x p IH]; simpl; [reflexivity|]. now rewrite N.eqb_refl. Qed.

Lemma match_include_marker (s v rest : str) :
  match_include s = Some (v, rest) -> starts_with (lit "<!--") s = true.
Proof.
  unfold match_include.
  destruct (strip_prefix (lit "<!--") s) as [s1|] eqn:E; [|discriminate].
  intros _. apply strip_prefix_some in E. rewrite E. apply starts_with_app.
Qed.

Lemma scan_fuel_no_marker (n : nat) (s : str) :
  str_contains (lit "<!--") s = false -> scan_fuel n s = map Text s.
Proof.
  revert s. induction n as [|n IH]; intros s H; [reflexivity|].
  destruct s as [|c s']; [reflexivity|].
  rewrite scan_fuel_S.
  cbn [str_contains] in H. apply orb_false_iff in H as [H1 H2].
  destruct (match_include (c :: s')) as [[v rest]|] eqn:E.
  - apply match_include_marker in E. congruence.
  - cbn [map]. f_equal. now apply IH.
Qed.

Lemma expand_no_marker (exn_str : exn -> str) (fs : FS) (content base_dir : str) :
  str_contains (lit "<!--") content = false ->
  expand exn_str fs content base_dir = content.
Proof.
  intro H. unfold expand, scan. rewrite scan_fuel_no_marker by exact H.
  rewrite map_map. cbn [render]. induction content as [|c s IH]; [reflexivity|].
  cbn [map concat]. cbn [str_contains] in H. apply orb_false_iff in H as [_ H].
  now rewrite IH.
Qed.

Lemma serve_resolved_html (guess_type : str -> str) (exn_str : exn -> str)
      (q : str) (data : bytes) (c : str) (w : World) :
  stat (w_fs w) q = Some (NFile true data) -> guess_type q = text_html ->
  utf8_decode data = Some c ->
  serve_resolved guess_type exn_str q w =
  match utf8_encode (expand exn_str (w_fs w) c (os_path_dirname q)) with
  | Some b => (Ok (RBytesIO b),
               mkWorld (w_fs w) (w_cwd w)
                 (w_out w ++ [EResponse 200; EHeader (lit "Content-type") text_html;
                              EHeader (lit "Content-Length") (str_of_nat (length b));
                              EEndHeaders]))
  | None => (Raise UnicodeEncodeError, w)
  end.
Proof.
  intros Hs Ht Hd. unfold serve_resolved. unfold_handler. crunch.
  rewrite open_rb_stat, Hs. crunch.
  rewrite Ht. assert (str_eqb text_html text_html = true) as E by (apply str_eqb_eq; reflexivity).
  rewrite E, Hd. crunch. rewrite handle_includes_eq. crunch.
  destruct (utf8_encode _); crunch; [|reflexivity].
  simpl. repeat rewrite <- app_assoc. reflexivity.
Qed.

Lemma serve_resolved_static (guess_type : str -> str) (exn_str : exn -> str)
      (q : str) (data : bytes) (w : World) :
  stat (w_fs w) q = Some (NFile true data) -> guess_type q <> text_html ->
  serve_resolved guess_type exn_str q w =
  (Ok (RFile data),
   mkWorld (w_fs w) (w_cwd w)
     (w_out w ++ [EResponse 200; EHeader (lit "Content-type") (guess_type q);
                  EHeader (lit "Content-Length") (str_of_nat (length data));
                  EEndHeaders])).
Proof.
  intros Hs Ht. unfold serve_resolved. unfold_handler. crunch.
  rewrite open_rb_stat, Hs. crunch.
  destruct (str_eqb (guess_type q) text_html) eqn:E.
  { apply str_eqb_eq in E. contradiction. }
  crunch. simpl. repeat rewrite <- app_assoc. reflexivity.
Qed.

Lemma serve_resolved_unopenable (guess_type : str -> str) (exn_str : exn -> str)
      (q : str) (w : World) :
  os_path_exists (w_fs w) q = true ->
  (forall data, stat (w_fs w) q <> Some (NFile true data)) ->
  serve_resolved guess_type exn_str q w =
  (Ok RNone, mkWorld (w_fs w) (w_cwd w)
               (w_out w ++ [ESendError 404 (lit "File not found")])).
Proof.
  intros Hx Hn. unfold serve_resolved. unfold_handler. crunch.
  rewrite open_rb_stat. unfold os_path_exists in Hx.
  destruct (stat (w_fs w) q) as [[|[|] data]|] eqn:Hs;
    [ | exfalso; exact (Hn data eq_refl) | | discriminate]; crunch; reflexivity.
Qed.

Lemma bio_read_open (data : bytes) (pos : nat) (size : option Z) :
  (pos <= length data)%nat ->
  exists n, (pos + n <= length data)%nat /\
    bio_read size (mkBytesIO data pos false) =
    (Ok (firstn n (skipn pos data)), mkBytesIO data (pos + n) false).
Proof.
  intro Hp. unfold bio_read. cbn [bio_closed bio_pos bio_buf].
  rewrite length_skipn.
  destruct size as [k|]; [destruct (k <? 0)%Z|].
  all: eexists; split; [|reflexivity]; lia.
Qed.

Lemma bio_reads_open (sizes : list (option Z)) (data : bytes) (pos : nat) :
  (pos <= length data)%nat ->
  exists chunks pos', (pos <= pos' <= length data)%nat /\
    bio_reads sizes (mkBytesIO data pos false) = (Ok chunks, mkBytesIO data pos' false) /\
    firstn pos data ++ concat chunks = firstn pos' data.
Proof.
  revert pos. induction sizes as [|s sizes IH]; intros pos Hp.
  - exists [], pos. rewrite app_nil_r. repeat split; lia.
  - destruct (bio_read_open data pos s Hp) as (n & Hn & E).
    destruct (IH (pos + n)%nat Hn) as (chunks & pos' & Hp' & E' & Hc).
    exists (firstn n (skipn pos data) :: chunks), pos'.
    cbn [bio_reads]. rewrite E, E'. split; [lia|]. split; [reflexivity|].
    cbn [concat]. rewrite app_assoc, <- Hc. f_equal.
    rewrite firstn_skipn_comm.
    replace (firstn pos data) with (firstn pos (firstn (pos + n) data))
      by (rewrite firstn_firstn; f_equal; lia).
    apply firstn_skipn.
Qed.

Lemma match_snoc {A B} (l : list A) (a : A) (x y : B) :
  match l ++ [a] with [] => x | _ :: _ => y end = y.
Proof. destruct l; reflexivity. Qed.

Lemma dirname_sibling (d f : str) :
  ends_with [slash] d = false -> forallb (fun c => negb (c =? slash)) f = true ->
  os_path_dirname (d ++ [slash] ++ f) = match d with [] => [slash] | _ :: _ => d end.
Proof.
  intros Hd Hf. unfold os_path_dirname.
  rewrite !rev_app_distr. cbn [rev app]. rewrite <- app_assoc. cbn [app].
  rewrite (span_app _ (rev f)).
  2:{ apply forallb_forall. intros x Hx. apply in_rev in Hx.
      exact (proj1 (forallb_forall _ f) Hf x Hx). }
  2:{ intros c r E. injection E as <- _. reflexivity. }
  cbn [snd rev app].
  destruct d as [|x d'] using rev_ind; [reflexivity|]. clear IHd'.
  unfold ends_with in Hd. rewrite rev_app_distr in Hd. cbn [rev app starts_with] in Hd.
  rewrite andb_true_r in Hd.
  rewrite !rev_involutive, !match_snoc.
  assert (forallb (N.eqb slash) ((d' ++ [x]) ++ [slash]) = false) as Ha.
  { apply not_true_iff_false. intro H. rewrite forallb_forall in H.
    rewrite (H x) in Hd; [discriminate|].
    apply in_or_app. left. apply in_or_app. right. now left. }
  rewrite Ha. cbn [negb].
  rewrite !rev_app_distr. cbn [rev app].
  rewrite (span_app _ [slash] (x :: rev d')).
  2:{ reflexivity. }
  2:{ intros c r E. injection E as <- _. exact Hd. }
  cbn [snd]. change (x :: rev d') with (rev [x] ++ rev d').
  rewrite <- rev_app_distr. apply rev_involutive.
Qed.

Lemma translate_newlines_no_cr (s : str) : ~ In 13 (translate_newlines s).
Proof.
  remember (length s) as n eqn:Hn. assert (length s <= n)%nat as Hle by lia. clear Hn.
  revert s Hle. induction n as [|n IH]; intros s Hle.
  - destruct s; [simpl; tauto | simpl in Hle; lia].
  - destruct s as [|c r]; [simpl; tauto|].
    destruct (N.eqb_spec c 13) as [->|Hc].
    + destruct r as [|c' r'].
      * simpl. intros [H|[]]. discriminate H.
      * destruct (N.eqb_spec c' 10) as [->|Hc'].
        -- cbn [translate_newlines]. intros [H|H]; [discriminate H|].
           apply (IH r'); [simpl in Hle; lia|exact H].
        -- assert (translate_newlines (13 :: c' :: r') = 10 :: translate_newlines (c' :: r')) as E.
           { cbn [translate_newlines]. destruct c' as [|p]; [reflexivity|].
             repeat (destruct p as [p|p|]; try reflexivity); congruence. }
           rewrite E. intros [H|H]; [discriminate H|].
           apply (IH (c' :: r')); [simpl in *; lia|exact H].
    + assert (translate_newlines (c :: r) = c :: translate_newlines r) as E.
      { cbn [translate_newlines]. destruct c as [|p]; [reflexivity|].
        repeat (destruct p as [p|p|]; try reflexivity); congruence. }
      rewrite E. intros [H|H]; [congruence|].
      apply (IH r); [simpl in Hle; lia|exact H].
Qed.
Lemma hex_val_digit (n : N) : n < 16 -> hex_val (hex_digit n) = Some n.
Proof.
  intro H. unfold hex_digit, hex_val, in_range.
  destruct (N.ltb_spec n 10).
  - destruct (N.leb_spec 48 (48 + n)); [|lia]. destruct (N.leb_spec (48 + n) 57); [|lia].
    cbn [andb]. f_equal. lia.
  - destruct (N.leb_spec 48 (55 + n)); [|lia]. destruct (N.leb_spec (55 + n) 57); [lia|].
    cbn [andb]. destruct (N.leb_spec 65 (55 + n)); [|lia]. destruct (N.leb_spec (55 + n) 70); [|lia].
    cbn [andb]. f_equal. lia.
Qed.

Lemma pct_decode_escape (s : str) :
  forallb (fun c => c <? 256) s = true -> pct_decode (pct_escape s) = s.
Proof.
  induction s as [|c s IH]; intro H; [reflexivity|].
  cbn [forallb] in H. apply andb_true_iff in H as [Hc H]. apply N.ltb_lt in Hc.
  unfold pct_escape. cbn [map concat]. cbn [app].
  change (pct_decode (37 :: hex_digit (c / 16) :: hex_digit (c mod 16) :: pct_escape s) = c :: s).
  cbn [pct_decode].
  rewrite !hex_val_digit by (apply N.mod_lt || (apply N.Div0.div_lt_upper_bound; lia); lia).
  f_equal; [|exact (IH H)].
  pose proof (N.div_mod c 16). lia.
Qed.

Lemma hex_digit_ascii (n : N) : n < 16 -> (hex_digit n <? 128) = true.
Proof. intro H. apply N.ltb_lt. unfold hex_digit. destruct (N.ltb_spec n 10); lia. Qed.

Lemma pct_escape_ascii (s : str) :
  forallb (fun c => c <? 128) s = true ->
  forallb (fun c => c <? 128) (pct_escape s) = true.
Proof.
  induction s as [|c s IH]; intro H; [reflexivity|].
  cbn [forallb] in H. apply andb_true_iff in H as [Hc H]. apply N.ltb_lt in Hc.
  unfold pct_escape. cbn [map concat]. rewrite forallb_app. fold (pct_escape s).
  rewrite (IH H). cbn [forallb].
  rewrite !hex_digit_ascii; [reflexivity | apply N.mod_lt; lia |].
  apply N.Div0.div_lt_upper_bound. lia.
Qed.

Lemma unquote_parts_ascii (s run : str) :
  forallb (fun c => c <? 128) s = true ->
  unquote_parts s run = utf8_decode_replace (pct_decode (rev run ++ s)).
Proof.
  revert run. induction s as [|c s IH]; intros run H.
  - cbn [unquote_parts]. now rewrite app_nil_r.
  - cbn [forallb] in H. apply andb_true_iff in H as [Hc H].
    cbn [unquote_parts]. rewrite Hc, IH by exact H. cbn [rev].
    now rewrite <- app_assoc.
Qed.

Lemma decode_replace_ascii (fuel : nat) (l : list N) :
  (length l <= fuel)%nat -> forallb (fun c => c <? 128) l = true ->
  utf8_decode_replace_fuel fuel l = l.
Proof.
  revert l. induction fuel as [|f IH]; intros l Hl H.
  - destruct l; [reflexivity | simpl in Hl; lia].
  - destruct l as [|c l]; [reflexivity|].
    cbn [forallb] in H. apply andb_true_iff in H as [Hc H].
    cbn [utf8_decode_replace_fuel]. unfold decode_step. rewrite Hc.
    cbn [skipn]. f_equal. apply IH; [simpl in Hl; lia | exact H].
Qed.

Lemma unquote_escape (s : str) :
  forallb (fun c => c <? 128) s = true -> unquote (pct_escape s) = s.
Proof.
  intro H. destruct s as [|c s']; [reflexivity|].
  unfold unquote. replace (existsb (N.eqb 37) (pct_escape (c :: s'))) with true by reflexivity.
  rewrite unquote_parts_ascii by (apply pct_escape_ascii; exact H).
  cbn [rev app]. rewrite pct_decode_escape.
  - apply decode_replace_ascii; [lia | exact H].
  - apply forallb_forall. intros x Hx. apply (proj1 (forallb_forall _ _) H) in Hx.
    apply N.ltb_lt in Hx. apply N.ltb_lt. lia.
Qed.


(** ** Properties *)

(** Decoding bytes as UTF-8 and encoding the text again gives the same bytes back. *)
Theorem utf8_decode_encode (data : bytes) (t : str) :
  utf8_decode data = Some t -> utf8_encode t = Some data.
Proof.
  unfold utf8_decode. intro H. rewrite (utf8_decode_fuel_encode _ _ _ H).
  rewrite map_map. f_equal. rewrite <- (map_id data) at 2. apply map_ext. apply byte_of_to_N.
Qed.


(** Reads of any sizes on a fresh [BytesIOWrapper] never raise, return consecutive pieces of its data, and a final [read()] returns the rest. *)
Theorem bytesio_chunked_reads (data : bytes) (sizes : list (option Z)) :
  exists chunks b tail b',
    bio_reads sizes (BytesIO data) = (Ok chunks, b) /\
    bio_read None b = (Ok tail, b') /\
    concat chunks ++ tail = data.
Proof.
  destruct (bio_reads_open sizes data 0 ltac:(lia)) as (chunks & pos & Hp & E & Hc).
  unfold BytesIO. rewrite E.
  eexists chunks, _, _, _. split; [reflexivity|]. split; [reflexivity|].
  cbn [app firstn] in Hc. rewrite Hc. cbn [bio_closed bio_pos bio_buf].
  rewrite firstn_all. apply firstn_skipn.
Qed.

(** Reading the wrapper an HTML answer returns to its end gives exactly its body, as many bytes as the Content-Length header says. *)
Theorem html_reply_read_matches_length (translate_path guess_type : str -> str)
  (exn_str : exn -> str) (self_path : str) (w w' : World) (body : bytes) :
  send_head translate_path guess_type exn_str self_path w = (Ok (RBytesIO body), w') ->
  exists all b, bio_read None (BytesIO body) = (Ok all, b) /\ all = body /\
    In (EHeader (lit "Content-Length") (str_of_nat (length all))) (w_out w').
Proof.
  intro H.
  destruct (send_head_routes translate_path guess_type exn_str self_path w)
    as [(q & _ & Hq) | [Hs | Hs]]; rewrite ?Hs in H; [|discriminate H|discriminate H].
  rewrite Hq in H.
  destruct (serve_resolved_bytesio _ _ _ _ _ _ H) as (data & c & _ & _ & _ & _ & ->).
  eexists _, _. split; [reflexivity|].
  cbn [bio_closed bio_pos bio_buf BytesIO skipn]. rewrite firstn_all. split; [reflexivity|].
  cbn [w_out]. apply in_or_app. right. cbn. tauto.
Qed.

(** A readable file whose type is not [text/html] is answered 200 with its type, its size as Content-Length, and the file itself. *)
Theorem send_head_static_file (translate_path guess_type : str -> str)
  (exn_str : exn -> str) (self_path : str) (w : World) (data : bytes) :
  stat (w_fs w) (translate_path self_path) = Some (NFile true data) ->
  guess_type (translate_path self_path) <> text_html ->
  send_head translate_path guess_type exn_str self_path w =
  (Ok (RFile data),
   mkWorld (w_fs w) (w_cwd w)
     (w_out w ++ [EResponse 200;
                  EHeader (lit "Content-type") (guess_type (translate_path self_path));
                  EHeader (lit "Content-Length") (str_of_nat (length data));
                  EEndHeaders])).
Proof.
  intros Hs Ht. rewrite send_head_file by (unfold os_path_isfile; now rewrite Hs).
  now apply serve_resolved_static.
Qed.

(** A file that exists but cannot be opened is answered 404 File not found, with no SPA fallback. *)
Theorem send_head_unreadable_file (translate_path guess_type : str -> str)
  (exn_str : exn -> str) (self_path : str) (w : World) (data : bytes) :
  stat (w_fs w) (translate_path self_path) = Some (NFile false data) ->
  send_head translate_path guess_type exn_str self_path w =
  (Ok RNone, mkWorld (w_fs w) (w_cwd w)
               (w_out w ++ [ESendError 404 (lit "File not found")])).
Proof.
  intro Hs. rewrite send_head_file by (unfold os_path_isfile; now rewrite Hs).
  apply serve_resolved_unopenable; [unfold os_path_exists; now rewrite Hs | congruence].
Qed.

(** In a directory whose [index.html] is itself a directory, that entry is chosen and the answer is 404, whatever [index.htm] holds. *)
Theorem directory_index_is_directory (translate_path guess_type : str -> str)
  (exn_str : exn -> str) (self_path : str) (w : World) :
  os_path_isdir (w_fs w) (translate_path self_path) = true ->
  stat (w_fs w) (os_path_join (translate_path self_path) (lit "index.html")) = Some NDir ->
  send_head translate_path guess_type exn_str self_path w =
  (Ok RNone, mkWorld (w_fs w) (w_cwd w)
               (w_out w ++ [ESendError 404 (lit "File not found")])).
Proof.
  intros Hd Hs.
  assert (os_path_exists (w_fs w)
            (os_path_join (translate_path self_path) (lit "index.html")) = true) as Hx
    by (unfold os_path_exists; now rewrite Hs).
  unfold_handler. crunch.
  apply serve_resolved_unopenable; [exact Hx | congruence].
Qed.

(** Text without [<!--] comes out of [handle_includes] unchanged. *)
Theorem handle_includes_without_marker (exn_str : exn -> str)
  (content base_dir : str) (w : World) :
  str_contains (lit "<!--") content = false ->
  handle_includes exn_str content base_dir w = (Ok content, w).
Proof.
  intro H. rewrite handle_includes_eq. now rewrite expand_no_marker.
Qed.

(** An HTML page whose text has no [<!--] is sent byte for byte as stored, its size as Content-Length. *)
Theorem html_page_without_directives_unchanged (translate_path guess_type : str -> str)
  (exn_str : exn -> str) (self_path : str) (w : World) (data : bytes) (t : str) :
  stat (w_fs w) (translate_path self_path) = Some (NFile true data) ->
  guess_type (translate_path self_path) = text_html ->
  utf8_decode data = Some t ->
  str_contains (lit "<!--") t = false ->
  send_head translate_path guess_type exn_str self_path w =
  (Ok (RBytesIO data),
   mkWorld (w_fs w) (w_cwd w)
     (w_out w ++ [EResponse 200; EHeader (lit "Content-type") text_html;
                  EHeader (lit "Content-Length") (str_of_nat (length data));
                  EEndHeaders])).
Proof.
  intros Hs Ht Hd Hm. rewrite send_head_file by (unfold os_path_isfile; now rewrite Hs).
  rewrite (serve_resolved_html _ _ _ _ _ _ Hs Ht Hd).
  rewrite expand_no_marker by exact Hm. now rewrite (utf8_decode_encode _ _ Hd).
Qed.

(** In a page at [d/f], a relative include value resolves to [d/value]: the page's own directory. *)
Theorem include_beside_page (exn_str : exn -> str) (d f v : str) (w : World) :
  ends_with [slash] d = false ->
  forallb (fun c => negb (c =? slash)) f = true ->
  starts_with [slash] (unquote v) = false ->
  replace_include exn_str (os_path_dirname (d ++ [slash] ++ f)) v w =
  (Ok (include_text exn_str (w_fs w) (d ++ [slash] ++ unquote v)), w).
Proof.
  intros Hd Hf Hu. rewrite replace_include_eq, (dirname_sibling _ _ Hd Hf).
  unfold os_path_join. rewrite Hu. destruct d as [|x d']; [reflexivity|].
  rewrite Hd. reflexivity.
Qed.

(** The text inserted for a readable included file never contains a carriage return. *)
Theorem included_file_has_no_cr (exn_str : exn -> str) (base_dir v : str) (w : World)
  (data : bytes) (t : str) :
  stat (w_fs w) (os_path_join base_dir (unquote v)) = Some (NFile true data) ->
  utf8_decode data = Some t ->
  exists s, replace_include exn_str base_dir v w = (Ok s, w) /\ ~ In 13 s.
Proof.
  intros Hs Hd. rewrite replace_include_eq.
  rewrite (include_text_readable _ _ _ _ _ Hs Hd).
  eexists. split; [reflexivity|]. apply translate_newlines_no_cr.
Qed.

(** A virtual value written as [%XX] escapes of an ASCII path names the same candidate as the plain path; the escapes are decoded once. *)
Theorem include_escaped_value (exn_str : exn -> str) (base_dir s : str) (w : World) :
  forallb (fun c => c <? 128) s = true ->
  replace_include exn_str base_dir (pct_escape s) w =
  (Ok (include_text exn_str (w_fs w) (os_path_join base_dir s)), w).
Proof.
  intro H. rewrite replace_include_eq. now rewrite unquote_escape.
Qed.


(** ** Witnesses *)


Lemma html_reply_read_matches_length_witness :
  exists all b, bio_read None (BytesIO demo_index_body) = (Ok all, b) /\ all = demo_index_body /\
    In (EHeader (lit "Content-Length") (str_of_nat (length all)))
       (w_out (snd (send_head demo_translate demo_guess demo_exn_str (lit "/") demo_world))).
Proof.
  apply (html_reply_read_matches_length demo_translate demo_guess demo_exn_str (lit "/")
           demo_world).
  vm_compute. reflexivity.
Defined.

Lemma send_head_static_file_witness :
  send_head demo_translate demo_guess demo_exn_str (lit "/app.js") site_world =
  (Ok (RFile (bytes_of (lit "run();"))),
   mkWorld site_fs (lit "/srv")
     [EResponse 200; EHeader (lit "Content-type") (lit "application/octet-stream");
      EHeader (lit "Content-Length") (lit "6"); EEndHeaders]).
Proof.
  refine (send_head_static_file demo_translate demo_guess demo_exn_str (lit "/app.js")
            site_world (bytes_of (lit "run();")) _ _).
  - vm_compute. reflexivity.
  - intro E. vm_compute in E. discriminate E.
Defined.

Lemma send_head_unreadable_file_witness :
  send_head demo_translate demo_guess demo_exn_str (lit "/locked.html") site_world =
  (Ok RNone, mkWorld site_fs (lit "/srv") [ESendError 404 (lit "File not found")]).
Proof.
  refine (send_head_unreadable_file demo_translate demo_guess demo_exn_str
            (lit "/locked.html") site_world (bytes_of (lit "x")) _).
  vm_compute. reflexivity.
Defined.

Lemma directory_index_is_directory_witness :
  send_head demo_translate demo_guess demo_exn_str (lit "/odd/") site_world =
  (Ok RNone, mkWorld site_fs (lit "/srv") [ESendError 404 (lit "File not found")]).
Proof.
  refine (directory_index_is_directory demo_translate demo_guess demo_exn_str
            (lit "/odd/") site_world _ _); vm_compute; reflexivity.
Defined.

Lemma handle_includes_without_marker_witness :
  handle_includes demo_exn_str (lit "<p>hi</p>") (lit "/srv") demo_world =
  (Ok (lit "<p>hi</p>"), demo_world).
Proof.
  apply handle_includes_without_marker. vm_compute. reflexivity.
Defined.

Lemma html_page_without_directives_unchanged_witness :
  send_head demo_translate demo_guess demo_exn_str (lit "/plain.html") site_world =
  (Ok (RBytesIO (bytes_of (lit "<p>plain</p>"))),
   mkWorld site_fs (lit "/srv")
     [EResponse 200; EHeader (lit "Content-type") text_html;
      EHeader (lit "Content-Length") (lit "12"); EEndHeaders]).
Proof.
  refine (html_page_without_directives_unchanged demo_translate demo_guess demo_exn_str
            (lit "/plain.html") site_world (bytes_of (lit "<p>plain</p>"))
            (lit "<p>plain</p>") _ _ _ _); vm_compute; reflexivity.
Defined.

Lemma include_beside_page_witness :
  replace_include demo_exn_str (os_path_dirname (lit "/srv" ++ [slash] ++ lit "index.html"))
    (lit "nav.html") demo_world =
  (Ok (include_text demo_exn_str demo_fs (lit "/srv" ++ [slash] ++ unquote (lit "nav.html"))),
   demo_world).
Proof.
  apply include_beside_page; vm_compute; reflexivity.
Defined.

Lemma included_file_has_no_cr_witness :
  exists s, replace_include demo_exn_str (lit "/srv") (lit "crlf.html") demo_world
            = (Ok s, demo_world) /\ ~ In 13 s.
Proof.
  apply (included_file_has_no_cr demo_exn_str (lit "/srv") (lit "crlf.html") demo_world
           (bytes_of [97; 13; 10; 98]) [97; 13; 10; 98]); vm_compute; reflexivity.
Defined.

Lemma include_escaped_value_witness :
  replace_include demo_exn_str (lit "/srv") (pct_escape (lit "nav.html")) demo_world =
  (Ok (include_text demo_exn_str demo_fs (os_path_join (lit "/srv") (lit "nav.html"))),
   demo_world).
Proof.
  apply include_escaped_value. vm_compute. reflexivity.
Defined.

Lemma utf8_decode_encode_witness :
  utf8_encode [233] = Some [Byte.xc3; Byte.xa9].
Proof.
  apply utf8_decode_encode. vm_compute. reflexivity.
Defined.
